(** * OpenRXN: compartment models, connections and the ODE derivative builder

    A shallow embedding of [openrxn/connections.py], [openrxn/model.py] and
    [openrxn/systems/ODESystem.py].

    Conventions of the embedding:
    - Python floats are modelled by the rationals [Q]; numeric comparison
      ([==], [<], [>]) is comparison of rationals.
    - Python dictionaries keep insertion order, and that order decides the
      order of derivative terms and of reported IDs, so a dictionary is an
      association list, read with [dict_get] and written with [dict_set].
    - A raised exception is the [Raise] branch of [result]; loops that may
      raise are folds in the [result] monad.
    - A [pint] quantity is a magnitude together with its units; units are a
      scale factor to the SI base units and a vector of dimension exponents.
    - Compartments and Ficks connections are objects that several owners
      refer to and that flattening writes to, so they live in a [Store] and
      are named by their address; a method that writes takes the store and
      returns it.
    - [makeID], [np.sqrt] and the length unit of positions are parameters.
      [Compartment.copy] and [Compartment.connect] are not among the sources
      and are modelled from the specification. *)

From Stdlib Require Import List String ZArith QArith Qpower Lia Lqa Bool.
Import ListNotations.

Open Scope string_scope.
Open Scope Q_scope.

(** ** Exceptions and the result monad *)

Inductive PyError : Type :=
| ValueError (msg : string) (args : list string)
| TypeError (msg : string)
| AttributeError (attr : string)
| KeyError (key : string)
| IndexError
| ZeroDivisionError
| DimensionalityError
| RuntimeError (msg : string).

Inductive result (A : Type) : Type :=
| Ok (a : A)
| Raise (e : PyError).

Arguments Ok {A} a.
Arguments Raise {A} e.

Definition bind {A B : Type} (m : result A) (k : A -> result B) : result B :=
  match m with
  | Ok a => k a
  | Raise e => Raise e
  end.

Notation "x <- m ;; k" := (bind m (fun x => k))
  (at level 61, m at next level, right associativity).

Definition is_ok {A : Type} (m : result A) : bool :=
  match m with Ok _ => true | Raise _ => false end.

(** [for x in xs: acc = body acc x], stopping at the first exception. *)
Fixpoint for_each {A S : Type} (body : S -> A -> result S) (xs : list A) (acc : S)
  : result S :=
  match xs with
  | [] => Ok acc
  | x :: rest => acc' <- body acc x ;; for_each body rest acc'
  end.

(** ** Dictionaries with string keys *)

Section Dict.
Context {V : Type}.

Definition dict := list (string * V).

Fixpoint dict_get (k : string) (d : dict) : option V :=
  match d with
  | [] => None
  | (k', v) :: rest => if String.eqb k k' then Some v else dict_get k rest
  end.

Definition dict_mem (k : string) (d : dict) : bool :=
  match dict_get k d with Some _ => true | None => false end.

(** [d[k] = v]: an existing key keeps its place, a new one goes last. *)
Fixpoint dict_set (k : string) (v : V) (d : dict) : dict :=
  match d with
  | [] => [(k, v)]
  | (k', v') :: rest =>
      if String.eqb k k' then (k', v) :: rest else (k', v') :: dict_set k v rest
  end.

Definition dict_keys (d : dict) : list string := map fst d.
Definition dict_values (d : dict) : list V := map snd d.

(** [d[k]] in an expression: [KeyError] when the key is absent. *)
Definition dict_item (k : string) (d : dict) : result V :=
  match dict_get k d with
  | Some v => Ok v
  | None => Raise (KeyError k)
  end.
End Dict.

Arguments dict V : clear implicits.

(** ** Quantities with units *)

Module Units.

(** Exponents of length, time and amount of substance. *)
Record Dim : Type := mkDim { d_len : Z; d_time : Z; d_amount : Z }.

Definition dim_eqb (a b : Dim) : bool :=
  (d_len a =? d_len b)%Z && (d_time a =? d_time b)%Z
    && (d_amount a =? d_amount b)%Z.

Definition dim_mul (a b : Dim) : Dim :=
  mkDim (d_len a + d_len b) (d_time a + d_time b) (d_amount a + d_amount b).
Definition dim_div (a b : Dim) : Dim :=
  mkDim (d_len a - d_len b) (d_time a - d_time b) (d_amount a - d_amount b).
Definition dim_pow (a : Dim) (n : Z) : Dim :=
  mkDim (d_len a * n) (d_time a * n) (d_amount a * n).

(** [scale] is the size of one unit in SI base units (m, s, mol). *)
Record Unit : Type := mkUnit { scale : Q; dim : Dim }.

Definition unit_mul (u v : Unit) : Unit :=
  mkUnit (scale u * scale v) (dim_mul (dim u) (dim v)).
Definition unit_div (u v : Unit) : Unit :=
  mkUnit (scale u / scale v) (dim_div (dim u) (dim v)).
Definition unit_pow (u : Unit) (n : Z) : Unit :=
  mkUnit (scale u ^ n) (dim_pow (dim u) n).

Definition dimensionless : Unit := mkUnit 1 (mkDim 0 0 0).
Definition meter : Unit := mkUnit 1 (mkDim 1 0 0).
Definition sec : Unit := mkUnit 1 (mkDim 0 1 0).
Definition mol : Unit := mkUnit 1 (mkDim 0 0 1).
Definition liter : Unit := mkUnit (1 # 1000) (mkDim 3 0 0).
Definition L : Unit := liter.

Record Quantity : Type := mkQuantity { magnitude : Q; units : Unit }.

Definition qmul (a b : Quantity) : Quantity :=
  mkQuantity (magnitude a * magnitude b) (unit_mul (units a) (units b)).

(** Division.  A zero divisor is given the exception that Python floats
    raise; a [numpy] magnitude gives [inf] with a warning instead, so what is
    proved about a quotient is proved of a returned quotient or for a
    divisor that is not zero. *)
Definition qdiv (a b : Quantity) : result Quantity :=
  if Qeq_bool (magnitude b) 0 then Raise ZeroDivisionError
  else Ok (mkQuantity (magnitude a / magnitude b) (unit_div (units a) (units b))).

Definition qpow (a : Quantity) (n : Z) : Quantity :=
  mkQuantity (magnitude a ^ n) (unit_pow (units a) n).

(** [q > 0] *)
Definition qpos (a : Quantity) : bool :=
  match 0 ?= magnitude a with Lt => true | _ => false end.

(** [q.ito(u)]: conversion to [u], an error when the dimensions differ. *)
Definition ito (q : Quantity) (u : Unit) : result Quantity :=
  if dim_eqb (dim (units q)) (dim u)
  then Ok (mkQuantity (magnitude q * (scale (units q) / scale u)) u)
  else Raise DimensionalityError.

End Units.
Import Units.

(** ** Connections ([connections.py]) *)

(** A value of a [species_rates] dictionary: a bare rate or a tuple
    [(k_out, k_in)]. *)
Inductive RateVal : Type :=
| Scalar (k : Quantity)
| Tuple2 (k_out k_in : Quantity).

Record AnisotropicConnection : Type :=
  mkAnisotropic { aniso_species_rates : dict RateVal }.

Record IsotropicConnection : Type :=
  mkIsotropic { iso_species_rates : dict RateVal }.

(** [FicksConnection.__init__] stores its three arguments and never sets
    [species_rates]. *)
Record FicksConnection : Type := mkFicks {
  species_d_constants : dict Quantity;
  surface_area : option Quantity;
  ic_distance : option Quantity
}.

Definition tuple_error : PyError :=
  ValueError "Error! Elements of species_rates dictionary should be tuples of length 2" [].

(** [AnisotropicConnection.__init__] *)
Definition AnisotropicConnection_init (species_rates : dict RateVal)
  : result AnisotropicConnection :=
  _ <- for_each (fun (_ : unit) s =>
                   v <- dict_item s species_rates ;;
                   match v with
                   | Tuple2 _ _ => Ok tt
                   | Scalar _ => Raise tuple_error
                   end)
                (dict_keys species_rates) tt ;;
  Ok (mkAnisotropic species_rates).

(** An argument as a call receives it: the instance or a rate value. *)
Inductive PyArg : Type :=
| SelfArg (c : AnisotropicConnection)
| ValArg (v : RateVal).

(** [def _flip_tuple(t): return (t[1],t[0])], a function of one positional
    parameter declared in the class body. *)
Definition _flip_tuple (args : list PyArg) : result RateVal :=
  match args with
  | [ValArg (Tuple2 a b)] => Ok (Tuple2 b a)
  | [_] => Raise (TypeError "object is not subscriptable")
  | _ => Raise (TypeError "_flip_tuple() takes 1 positional argument but 2 were given")
  end.

(** [self.f(args)]: a function found on the class is called with the
    instance as its first argument. *)
Definition method_call {A : Type} (self : AnisotropicConnection)
    (f : list PyArg -> result A) (args : list PyArg) : result A :=
  f (SelfArg self :: args).

(** [AnisotropicConnection.reverse] *)
Definition reverse (self : AnisotropicConnection) : result AnisotropicConnection :=
  rev_species_rates <-
    for_each (fun rev s =>
                v <- dict_item s (aniso_species_rates self) ;;
                t <- method_call self _flip_tuple [ValArg v] ;;
                Ok (dict_set s t rev))
             (dict_keys (aniso_species_rates self)) [] ;;
  AnisotropicConnection_init rev_species_rates.

(** [IsotropicConnection.__init__] *)
Definition IsotropicConnection_init (species_rates : dict RateVal)
  : result IsotropicConnection :=
  d <- for_each (fun d s =>
                   k <- dict_item s d ;;
                   match k with
                   | Tuple2 _ _ => Ok d
                   | Scalar q => Ok (dict_set s (Tuple2 q q) d)
                   end)
                (dict_keys species_rates) species_rates ;;
  Ok (mkIsotropic d).

Definition liter_per_sec : Unit := unit_div liter sec.

Definition not_ready : PyError :=
  ValueError "Error!  This connection is not ready to be resolved." [].

(** The rate of one species in [FicksConnection.resolve]:
    [d*self.surface_area/self.ic_distance], then [.ito(ureg.liter/ureg.sec)]. *)
Definition ficks_rate (d A dx : Quantity) : result Quantity :=
  k <- qdiv (qmul d A) dx ;;
  ito k liter_per_sec.

(** The loop of [FicksConnection.resolve] over
    [self.species_d_constants.items()], filling [rates]. *)
Definition resolve_rates (A dx : Quantity) (consts : dict Quantity)
  : result (dict RateVal) :=
  for_each (fun rates (sd : string * Quantity) =>
              k <- ficks_rate (snd sd) A dx ;;
              Ok (dict_set (fst sd) (Scalar k) rates))
           consts [].

(** [FicksConnection.resolve] *)
Definition resolve (self : FicksConnection) : result IsotropicConnection :=
  match surface_area self, ic_distance self with
  | Some A, Some dx =>
      rates <- resolve_rates A dx (species_d_constants self) ;;
      IsotropicConnection_init rates
  | _, _ => Raise not_ready
  end.

(** [t[i]] for [i] in [0, 1] on a rate value. *)
Definition rate_index (v : RateVal) (i : nat) : result Quantity :=
  match v, i with
  | Tuple2 a _, O => Ok a
  | Tuple2 _ b, S O => Ok b
  | Tuple2 _ _, _ => Raise IndexError
  | Scalar _, _ => Raise (TypeError "object is not subscriptable")
  end.

(** The anisotropic rates of [examples/membrane_slab.py]. *)
Definition drug_rates : dict RateVal :=
  [("drug", Tuple2 (mkQuantity (1 # 100000) (unit_div dimensionless sec))
                   (mkQuantity (1 # 10) (unit_div dimensionless sec)))].

(** What [IsotropicConnection.__init__] leaves in place of a value. *)
Definition as_pair (v : RateVal) : RateVal :=
  match v with
  | Scalar q => Tuple2 q q
  | Tuple2 a b => Tuple2 a b
  end.

(** A diffusion "constant" given as a rate ([1e-5/unit.sec]) on a connection
    whose area and distance are both bound. *)
Definition ficks_bad_units : FicksConnection :=
  mkFicks [("drug", mkQuantity (1 # 100000) (unit_div dimensionless sec))]
          (Some (mkQuantity 1 (unit_pow meter 2)))
          (Some (mkQuantity 1 meter)).

(** [1e-8 cm**2/s] over an area of [100 nm**2] and a distance of [10 nm]. *)
Definition ficks_slab : FicksConnection :=
  mkFicks [("drug", mkQuantity (1 # 100000000)
                      (unit_div (unit_pow (mkUnit (1 # 100) (mkDim 1 0 0)) 2) sec))]
          (Some (mkQuantity 100 (unit_pow (mkUnit (1 # 1000000000) (mkDim 1 0 0)) 2)))
          (Some (mkQuantity 10 (mkUnit (1 # 1000000000) (mkDim 1 0 0)))).

(** ** Species, reactions and compartments

    The classes [Species], [Reaction], [Compartment] and [State] are used by
    the embedded code through the attributes below. *)

Record Species : Type := mkSpecies { species_ID : string }.

Record Reaction : Type := mkReaction {
  reactant_IDs : list string;
  product_IDs : list string;
  reactants : list Species;
  products : list Species;
  stoich_r : list Z;
  stoich_p : list Z;
  kf : Quantity;
  kr : Quantity
}.

(** Objects live in a store and are named by their address. *)
Definition ref : Type := nat.

(** A connection as a compartment holds it.  Isotropic and anisotropic
    connections are never written after construction and are kept by value;
    a [FicksConnection] is written by [Model.resolve_ficks] and is kept by
    reference. *)
Inductive Connection : Type :=
| Anisotropic (c : AnisotropicConnection)
| Isotropic (c : IsotropicConnection)
| Ficks (r : ref).

(** [conn.species_rates]; a [FicksConnection] has no such attribute. *)
Definition get_species_rates (conn : Connection) : result (dict RateVal) :=
  match conn with
  | Anisotropic c => Ok (aniso_species_rates c)
  | Isotropic c => Ok (iso_species_rates c)
  | Ficks _ => Raise (AttributeError "species_rates")
  end.

(** A compartment.  [pos] holds one [(min, max)] pair per axis and
    [face_area] is the dictionary [surface_area] with keys ['yz'], ['xz'] and
    ['xy']; positions, box lengths and face areas are magnitudes in one
    length unit.  An entry of [connections] is the tuple
    [(other_compartment, connection)]. *)
Record Compartment : Type := mkCompartment {
  ID : string;
  array_ID : option string;
  pos : list (Q * Q);
  face_area : dict Q;
  volume : Quantity;
  reactions : list Reaction;
  connections : dict (ref * Connection)
}.

Record CompartmentArray : Type := mkArray {
  arr_array_ID : string;
  arr_periodic : list bool;
  arr_box_len : list Q;
  arr_compartments : dict ref
}.

Record Store : Type := mkStore {
  comps : list Compartment;
  ficks : list FicksConnection
}.

(** ** Models ([model.py]) *)

Record Model : Type := mkModel {
  compartments : dict ref;
  arrays : dict CompartmentArray;
  periodic : option (list bool);
  box_len : option (list Q)
}.

(** The attributes that [Model.__init__] sets. *)
Inductive ModelAttr : Type :=
| ACompartments (d : dict ref)
| AArrays (d : dict CompartmentArray)
| APeriodic (p : option (list bool))
| ABoxLen (b : option (list Q)).

(** [self.<name>] on a [Model]. *)
Definition Model_getattr (self : Model) (name : string) : result ModelAttr :=
  if String.eqb name "compartments" then Ok (ACompartments (compartments self))
  else if String.eqb name "arrays" then Ok (AArrays (arrays self))
  else if String.eqb name "periodic" then Ok (APeriodic (periodic self))
  else if String.eqb name "box_len" then Ok (ABoxLen (box_len self))
  else Raise (AttributeError name).

(** [a[k] = c] for an attribute value [a] of [self] and a compartment [c];
    only [compartments] is a dictionary of compartments. *)
Definition Model_setitem (self : Model) (a : ModelAttr) (k : string) (c : ref)
  : result Model :=
  match a with
  | ACompartments d =>
      Ok (mkModel (dict_set k c d) (arrays self) (periodic self) (box_len self))
  | _ => Raise (TypeError "object does not support item assignment")
  end.

Definition duplicate_compartment (id : string) : PyError :=
  ValueError "Error! Duplicate compartment ID in model ({0})" [id].

(** [Model.add_compartment], for a compartment whose [ID] is
    [compartment_ID]; the model after the call and what the call returned or
    raised. *)
Definition Model_add_compartment (self : Model) (compartment_ID : string)
    (compartment : ref) : Model * result unit :=
  if dict_mem compartment_ID (compartments self)
  then (self, Raise (duplicate_compartment compartment_ID))
  else
    match (a <- Model_getattr self "comparments" ;;
           Model_setitem self a compartment_ID compartment) with
    | Ok self' => (self', Ok tt)
    | Raise e => (self, Raise e)
    end.

(** *** Geometry of [Model.resolve_ficks] *)

(** [min(a, b)] *)
Definition py_min (a b : Q) : Q :=
  match b ?= a with Lt => b | _ => a end.

(** [pos[i]] *)
Definition pos_at (p : list (Q * Q)) (i : nat) : result (Q * Q) :=
  match nth_error p i with
  | Some lohi => Ok lohi
  | None => Raise IndexError
  end.

(** [pos1[i][1] == pos2[i][0] or pos1[i][0] == pos2[i][1]] *)
Definition adjoining (p1 p2 : Q * Q) : bool :=
  Qeq_bool (snd p1) (fst p2) || Qeq_bool (fst p1) (snd p2).

Definition no_adjoining_face : PyError :=
  ValueError "Error! Unable to determine adjoining face for regions: ({0}) and ({1})" [].

(** [min(c1.surface_area[face], c2.surface_area[face])] *)
Definition min_face (face : string) (c1 c2 : Compartment) : result Q :=
  a1 <- dict_item face (face_area c1) ;;
  a2 <- dict_item face (face_area c2) ;;
  Ok (py_min a1 a2).

(** The branch of [resolve_ficks] taken when [conn.surface_area is None]. *)
Definition compute_surface_area (c1 c2 : Compartment) : result Q :=
  x1 <- pos_at (pos c1) 0 ;;
  x2 <- pos_at (pos c2) 0 ;;
  if adjoining x1 x2 then min_face "yz" c1 c2
  else
    y1 <- pos_at (pos c1) 1 ;;
    y2 <- pos_at (pos c2) 1 ;;
    if adjoining y1 y2 then min_face "xz" c1 c2
    else
      z1 <- pos_at (pos c1) 2 ;;
      z2 <- pos_at (pos c2) 2 ;;
      if adjoining z1 z2 then min_face "xy" c1 c2
      else Raise no_adjoining_face.

(** [0.5*(pos[i][0]+pos[i][1])] *)
Definition center (lohi : Q * Q) : Q := (1 # 2) * (fst lohi + snd lohi).

(** The first loop: [d[i] = center of c1 - center of c2] for [i] in
    [range(len(d))], on [d = [0,0,0]]. *)
Definition center_displacements (c1 c2 : Compartment) : result (list Q) :=
  for_each (fun (d : list Q) (i : nat) =>
              p1 <- pos_at (pos c1) i ;;
              p2 <- pos_at (pos c2) i ;;
              Ok (firstn i d ++ (center p1 - center p2) :: skipn (S i) d)%list)
           (seq 0 3) [0; 0; 0].

(** [xs[i]] on an attribute that may be [None]. *)
Definition opt_list_at {A : Type} (xs : option (list A)) (i : nat) : result A :=
  match xs with
  | None => Raise (TypeError "'NoneType' object is not subscriptable")
  | Some l =>
      match nth_error l i with
      | Some x => Ok x
      | None => Raise IndexError
      end
  end.

(** The shift of one displacement along a periodic axis of length [len]. *)
Definition wrap (len dc : Q) : Q :=
  match dc * 2 ?= - len with
  | Lt => dc + len
  | _ => match dc * 2 ?= len with
         | Gt => dc - len
         | _ => dc
         end
  end.

(** One turn of the second loop: the displacement [dc] of axis [i] as it is
    squared. *)
Definition wrapped_displacement (self : Model) (i : nat) (dc : Q) : result Q :=
  p <- opt_list_at (periodic self) i ;;
  if (p : bool) then
    len <- opt_list_at (box_len self) i ;;
    Ok (wrap len dc)
  else Ok dc.

(** [enumerate(d)] *)
Definition enumerate {A : Type} (l : list A) : list (nat * A) :=
  combine (seq 0 (List.length l)) l.

(** The sum that [np.sqrt] is applied to. *)
Definition squared_distance (self : Model) (c1 c2 : Compartment) : result Q :=
  d <- center_displacements c1 c2 ;;
  for_each (fun (acc : Q) (idc : nat * Q) =>
              w <- wrapped_displacement self (fst idc) (snd idc) ;;
              Ok (acc + w ^ 2))
           (enumerate d) 0.

(** *** The store *)

Definition dangling : PyError := RuntimeError "address outside the store".

Definition deref_comp (st : Store) (r : ref) : result Compartment :=
  match nth_error (comps st) r with
  | Some c => Ok c
  | None => Raise dangling
  end.

Definition deref_ficks (st : Store) (r : ref) : result FicksConnection :=
  match nth_error (ficks st) r with
  | Some f => Ok f
  | None => Raise dangling
  end.

(** [l[i] := x] on a list of objects; nothing is written outside it. *)
Fixpoint list_update {A : Type} (l : list A) (i : nat) (x : A) : list A :=
  match l, i with
  | [], _ => []
  | _ :: rest, O => x :: rest
  | y :: rest, S j => y :: list_update rest j x
  end.

Definition write_comp (st : Store) (r : ref) (c : Compartment) : Store :=
  mkStore (list_update (comps st) r c) (ficks st).

Definition write_ficks (st : Store) (r : ref) (f : FicksConnection) : Store :=
  mkStore (comps st) (list_update (ficks st) r f).

(** A new compartment object; its address is the next free one. *)
Definition alloc_comp (st : Store) (c : Compartment) : Store * ref :=
  (mkStore (comps st ++ [c])%list (ficks st), List.length (comps st)).

Section ModelOperations.

(** [openrxn.compartments.ID.makeID], the length unit of positions and
    [np.sqrt]. *)
Variable makeID : option string -> string -> string.
Variable length_unit : Unit.
Variable np_sqrt : Q -> Q.

(** Modelled from the spec: [Compartment.copy(ID=newID, delete_array_ID=True)],
    which is not among the sources.  The FlatModel owns copies of the
    compartments, detached from array identity: the copy is a new object
    with the new ID, no array ID and the attributes of the original, its
    dictionary of connections being a dictionary of its own with the same
    entries. *)
Definition Compartment_copy (c : Compartment) (newID : string) : Compartment :=
  mkCompartment newID None (pos c) (face_area c) (volume c) (reactions c)
                (connections c).

(** Modelled from the spec: [Compartment.connect(other, conn,
    warn_overwrite=False)], which is not among the sources.  [connections]
    maps the neighbour's fully-qualified ID to the tuple
    [(neighbor_compartment, connection)], and an entry already there is
    replaced silently. *)
Definition Compartment_connect (st : Store) (self other : ref) (conn : Connection)
  : result Store :=
  c <- deref_comp st self ;;
  o <- deref_comp st other ;;
  Ok (write_comp st self
        (mkCompartment (ID c) (array_ID c) (pos c) (face_area c) (volume c)
           (reactions c)
           (dict_set (makeID (array_ID o) (ID o)) (other, conn) (connections c)))).

(** [if conn.surface_area is None: ...] *)
Definition bind_surface_area (c1 c2 : Compartment) (conn : FicksConnection)
  : result FicksConnection :=
  match surface_area conn with
  | Some _ => Ok conn
  | None =>
      a <- compute_surface_area c1 c2 ;;
      Ok (mkFicks (species_d_constants conn)
                  (Some (mkQuantity a (unit_pow length_unit 2)))
                  (ic_distance conn))
  end.

(** [if conn.ic_distance is None: ...] *)
Definition bind_ic_distance (self : Model) (c1 c2 : Compartment)
    (conn : FicksConnection) : result FicksConnection :=
  match ic_distance conn with
  | Some _ => Ok conn
  | None =>
      s <- squared_distance self c1 c2 ;;
      Ok (mkFicks (species_d_constants conn) (surface_area conn)
                  (Some (mkQuantity (np_sqrt s) length_unit)))
  end.

(** [Model.resolve_ficks]; the store is the one a returning call leaves. *)
Definition resolve_ficks (self : Model) (st : Store) (c1 c2 conn : ref)
  : result Store :=
  o1 <- deref_comp st c1 ;;
  o2 <- deref_comp st c2 ;;
  f <- deref_ficks st conn ;;
  f1 <- bind_surface_area o1 o2 f ;;
  f2 <- bind_ic_distance self o1 o2 f1 ;;
  new_conn <- resolve f2 ;;
  let st1 := write_ficks st conn f2 in
  st2 <- Compartment_connect st1 c1 c2 (Isotropic new_conn) ;;
  Compartment_connect st2 c2 c1 (Isotropic new_conn).

Record FlatModel : Type := mkFlatModel { flat_compartments : dict ref }.

(** [FlatModel.add_compartment] *)
Definition FlatModel_add_compartment (acc : Store * FlatModel) (compartment : ref)
  : result (Store * FlatModel) :=
  c <- deref_comp (fst acc) compartment ;;
  let newID := makeID (array_ID c) (ID c) in
  if dict_mem newID (flat_compartments (snd acc))
  then Raise (duplicate_compartment newID)
  else
    let (st', r) := alloc_comp (fst acc) (Compartment_copy c newID) in
    Ok (st', mkFlatModel (dict_set newID r (flat_compartments (snd acc)))).

(** [FlatModel.add_compartments] *)
Definition FlatModel_add_compartments (acc : Store * FlatModel)
    (compartments : list ref) : result (Store * FlatModel) :=
  for_each FlatModel_add_compartment compartments acc.

(** [FlatModel.find_missing_compartments] *)
Definition find_missing_compartments (st : Store) (self : FlatModel)
  : result (list string) :=
  for_each (fun missing cref =>
              c <- deref_comp st cref ;;
              for_each (fun missing nbor =>
                          if dict_mem nbor (flat_compartments self)
                          then Ok missing
                          else Ok (missing ++ [nbor])%list)
                       (dict_keys (connections c)) missing)
           (dict_values (flat_compartments self)) [].

Definition missing_compartments (missing : list string) : PyError :=
  ValueError "Error! The following compartments are referred to in connections, but missing from the model: {0}" missing.

Definition changed_size : PyError :=
  RuntimeError "dictionary changed size during iteration".

(** [for label,conn in c.connections.items(): ...] for one compartment [c]
    of the flat model.  The dictionary is read while the body writes to it:
    each step reads the entry at the next position of the dictionary as it
    then is, and a dictionary whose size has changed stops the loop with
    [RuntimeError]. *)
Definition resolve_connections_of (self : Model) (st : Store) (c : ref)
  : result Store :=
  c0 <- deref_comp st c ;;
  let n := List.length (connections c0) in
  st' <- for_each (fun st j =>
                     cj <- deref_comp st c ;;
                     if negb (List.length (connections cj) =? n)%nat
                     then Raise changed_size
                     else
                       match nth_error (connections cj) j with
                       | Some (_, (other, Ficks r)) => resolve_ficks self st c other r
                       | Some _ => Ok st
                       | None => Raise changed_size
                       end)
                  (seq 0 n) st ;;
  c' <- deref_comp st' c ;;
  if (List.length (connections c') =? n)%nat then Ok st' else Raise changed_size.

(** The compartments [Model.flatten] adds, in the order it adds them. *)
Definition source_compartments (self : Model) : list ref :=
  (dict_values (compartments self)
   ++ flat_map (fun a => dict_values (arr_compartments a))
               (dict_values (arrays self)))%list.

(** The first part of [Model.flatten]: the new [FlatModel] with the
    standalone compartments, then those of each array, added. *)
Definition flatten_namespace (self : Model) (st : Store)
  : result (Store * FlatModel) :=
  acc <- FlatModel_add_compartments (st, mkFlatModel [])
           (dict_values (compartments self)) ;;
  for_each (fun acc a =>
              FlatModel_add_compartments acc (dict_values (arr_compartments a)))
           (dict_values (arrays self)) acc.

(** [Model.flatten] *)
Definition flatten (self : Model) (st : Store) : result (Store * FlatModel) :=
  acc <- flatten_namespace self st ;;
  let (st1, flatmodel) := (acc : Store * FlatModel) in
  missing <- find_missing_compartments st1 flatmodel ;;
  if (0 <? List.length missing)%nat
  then Raise (missing_compartments missing)
  else
    st2 <- for_each (resolve_connections_of self)
                    (dict_values (flat_compartments flatmodel)) st1 ;;
    Ok (st2, flatmodel).

End ModelOperations.

(** *** Sample geometry *)

Definition unit_cube (id : string) (x y z : Q * Q) (yz xz xy : Q) : Compartment :=
  mkCompartment id None [x; y; z] [("yz", yz); ("xz", xz); ("xy", xy)]
                (mkQuantity 1 liter) [] [].

(** Two boxes that meet along an edge: they touch both in x and in y. *)
Definition corner_a : Compartment := unit_cube "a" (0, 1) (0, 1) (0, 1) 1 2 3.
Definition corner_b : Compartment := unit_cube "b" (1, 2) (1, 2) (0, 1) 4 5 6.

(** Two boxes that share the face [x = 1]. *)
Definition face_a : Compartment := unit_cube "a" (0, 1) (0, 1) (0, 1) 1 1 1.
Definition face_b : Compartment := unit_cube "b" (1, 3) (0, 1) (0, 1) 1 2 2.

(** A model periodic in x and y with a box of length 10 on each axis, and
    two boxes whose centers lie 20 apart along x. *)
Definition periodic_xy : Model :=
  mkModel [] [] (Some [true; true; false]) (Some [10; 10; 10]).
Definition far_a : Compartment := unit_cube "a" (20, 21) (0, 1) (0, 1) 1 1 1.
Definition far_b : Compartment := unit_cube "b" (0, 1) (0, 1) (0, 1) 1 1 1.
Definition near_a : Compartment := unit_cube "a" (9, 10) (0, 1) (0, 1) 1 1 1.

(** The displacement of one axis as the second loop squares it. *)
Definition axis_term (p : bool) (len : Q) (p1 p2 : Q * Q) : Q :=
  if p then wrap len (center p1 - center p2) else center p1 - center p2.

(** ** ODE systems ([systems/ODESystem.py]) *)

(** The attributes of [State] that the system reads and writes. *)
Record State : Type := mkState {
  size : nat;
  st_compartment : list string;
  st_species : list string;
  index : dict (dict nat);
  q_val : list Q
}.

(** A source or sink term [(k_j, [q_k0, q_k1...])]. *)
Definition Term : Type := (Quantity * list nat)%type.

(** [DerivFuncBuilder(sources, sinks)] *)
Record DerivFuncBuilder : Type := mkBuilder {
  sources : list Term;
  sinks : list Term
}.

Record ODESystem : Type := mkSystem {
  model : FlatModel;
  state : State;
  NA : Q
}.

(** [xs[i]] *)
Definition list_at {A : Type} (xs : list A) (i : nat) : result A :=
  match nth_error xs i with
  | Some x => Ok x
  | None => Raise IndexError
  end.

(** [s in ids] *)
Definition str_in (s : string) (ids : list string) : bool :=
  existsb (String.eqb s) ids.

(** The loop [for j,x in enumerate(xs): q_list += [index[c.ID][x.ID]]*stoich[j];
    n += stoich[j]], from [q_list = []] and [n = 0]. *)
Definition order_loop (idx : dict (dict nat)) (cID : string) (xs : list Species)
    (stoich : list Z) : result (list nat * Z) :=
  for_each (fun (acc : list nat * Z) (jx : nat * Species) =>
              row <- dict_item cID idx ;;
              q <- dict_item (species_ID (snd jx)) row ;;
              m <- list_at stoich (fst jx) ;;
              Ok ((fst acc ++ repeat q (Z.to_nat m))%list, (snd acc + m)%Z))
           (enumerate xs) ([], 0%Z).

(** [if n - 1 > 0: vol_fac = c.volume**(n-1); (k/vol_fac, q_list)
     else: (k, q_list)] *)
Definition rate_term (k vol : Quantity) (n : Z) (q_list : list nat) : result Term :=
  if (n - 1 >? 0)%Z then
    k' <- qdiv k (qpow vol (n - 1)) ;;
    Ok (k', q_list)
  else Ok (k, q_list).

(** One direction of a reaction: the term of rate constant [k] over the
    species [xs], appended when [k > 0]. *)
Definition direction_term (idx : dict (dict nat)) (c : Compartment) (k : Quantity)
    (xs : list Species) (stoich : list Z) (terms : list Term) : result (list Term) :=
  if qpos k then
    qn <- order_loop idx (ID c) xs stoich ;;
    t <- rate_term k (volume c) (snd qn) (fst qn) ;;
    Ok (terms ++ [t])%list
  else Ok terms.

(** The body of [for r in c.reactions], on the pair (sources, sinks). *)
Definition reaction_step (idx : dict (dict nat)) (c : Compartment) (s : string)
    (acc : list Term * list Term) (r : Reaction) : result (list Term * list Term) :=
  if str_in s (reactant_IDs r) then
    snk <- direction_term idx c (kf r) (reactants r) (stoich_r r) (snd acc) ;;
    src <- direction_term idx c (kr r) (products r) (stoich_p r) (fst acc) ;;
    Ok (src, snk)
  else if str_in s (product_IDs r) then
    src <- direction_term idx c (kf r) (reactants r) (stoich_r r) (fst acc) ;;
    snk <- direction_term idx c (kr r) (products r) (stoich_p r) (snd acc) ;;
    Ok (src, snk)
  else Ok acc.

(** The body of [for other_lab, conn in c.connections.items()]. *)
Definition connection_step (st : Store) (idx : dict (dict nat)) (c : Compartment)
    (s : string) (i : nat) (acc : list Term * list Term)
    (entry : string * (ref * Connection)) : result (list Term * list Term) :=
  let other_lab := fst entry in
  let conn := snd entry in
  rates <- get_species_rates (snd conn) ;;
  if dict_mem s rates then
    out_pair <- dict_item s rates ;;
    k_out <- rate_index out_pair 0 ;;
    out <- qdiv k_out (volume c) ;;
    let snk := (snd acc ++ [(out, [i])])%list in
    in_pair <- dict_item s rates ;;
    k_in <- rate_index in_pair 1 ;;
    other <- deref_comp st (fst conn) ;;
    inc <- qdiv k_in (volume other) ;;
    row <- dict_item other_lab idx ;;
    j <- dict_item s row ;;
    Ok ((fst acc ++ [(inc, [j])])%list, snk)
  else Ok acc.

(** The body of [for i in range(self.state.size)]: the builder of state
    position [i]. *)
Definition builder_at (st : Store) (self : ODESystem) (i : nat)
  : result DerivFuncBuilder :=
  lab <- list_at (st_compartment (state self)) i ;;
  cref <- dict_item lab (flat_compartments (model self)) ;;
  c <- deref_comp st cref ;;
  s <- list_at (st_species (state self)) i ;;
  acc <- for_each (reaction_step (index (state self)) c s) (reactions c) ([], []) ;;
  acc <- for_each (connection_step st (index (state self)) c s i) (connections c) acc ;;
  Ok (mkBuilder (fst acc) (snd acc)).

(** [ODESystem._build_dqdt] *)
Definition _build_dqdt (st : Store) (self : ODESystem) : result (list DerivFuncBuilder) :=
  for_each (fun dqdt i =>
              b <- builder_at st self i ;;
              Ok (dqdt ++ [b])%list)
           (seq 0 (size (state self))) [].

(** *** [ODESystem.set_q] *)

(** The units of a quantity as [pint] holds them: the names of the units
    with their exponents.  [==] on units compares these names, so [mol/L],
    [mmol/L] and [molar] are three different units although all are
    concentrations. *)
Definition UnitNames : Type := dict Z.

(** The exponent of a unit name, zero when the name does not occur. *)
Definition name_exp (n : string) (u : UnitNames) : Z :=
  match dict_get n u with
  | Some e => e
  | None => 0%Z
  end.

(** [u == v] on units. *)
Definition names_eqb (u v : UnitNames) : bool :=
  forallb (fun ne : string * Z => (snd ne =? name_exp (fst ne) v)%Z) u
  && forallb (fun ne : string * Z => (snd ne =? name_exp (fst ne) u)%Z) v.

(** [unit.mol/unit.L], [unit.mol] and [unit.dimensionless] *)
Definition mol_per_L : UnitNames := [("mole", 1%Z); ("liter", (-1)%Z)].
Definition unit_mol : UnitNames := [("mole", 1%Z)].
Definition unit_dimensionless : UnitNames := [].

(** A quantity as [set_q] receives it. *)
Record PintQuantity : Type := mkPint { p_magnitude : Q; p_units : UnitNames }.

(** The argument [Q]: a bare number, or a quantity (which has [units]). *)
Inductive QInput : Type :=
| Bare (x : Q)
| WithUnits (q : PintQuantity).

Definition bad_quantity : PyError :=
  ValueError "Quantity values should be either mol, mol/L or dimensionless" [].

(** The first part of [set_q]: the flags [(mult_volume, mult_na)] and [Q]
    as the loop uses it. *)
Definition set_q_flags (Qin : QInput) : result (bool * bool * PintQuantity) :=
  match Qin with
  | WithUnits q =>
      if names_eqb (p_units q) mol_per_L then Ok (true, true, q)
      else if names_eqb (p_units q) unit_mol then Ok (false, true, q)
      else if negb (names_eqb (p_units q) unit_dimensionless) then Raise bad_quantity
      else Ok (false, false, q)
  | Bare x => Ok (false, false, mkPint x unit_dimensionless)
  end.

(** [tmp.magnitude] for the index [i].  Only the magnitude of [tmp] is
    read, and the magnitude of a product is the product of the magnitudes,
    whatever the units of the volume are. *)
Definition set_q_value (st : Store) (self : ODESystem) (mult_volume mult_na : bool)
    (q : PintQuantity) (i : nat) : result Q :=
  tmp <- (if mult_volume then
            lab <- list_at (st_compartment (state self)) i ;;
            cref <- dict_item lab (flat_compartments (model self)) ;;
            c <- deref_comp st cref ;;
            Ok (magnitude (volume c) * p_magnitude q)
          else Ok (p_magnitude q)) ;;
  Ok (if mult_na then tmp * NA self else tmp).

(** [for i in idxs: ... self.state.q_val[i] = tmp.magnitude]; the array
    after the loop and how the loop ended. *)
Fixpoint set_q_loop (st : Store) (self : ODESystem) (mult_volume mult_na : bool)
    (q : PintQuantity) (idxs : list nat) (qv : list Q) : list Q * result unit :=
  match idxs with
  | [] => (qv, Ok tt)
  | i :: rest =>
      match set_q_value st self mult_volume mult_na q i with
      | Raise e => (qv, Raise e)
      | Ok v =>
          if (i <? List.length qv)%nat
          then set_q_loop st self mult_volume mult_na q rest (list_update qv i v)
          else (qv, Raise IndexError)
      end
  end.

(** [ODESystem.set_q]: [state.q_val] after the call and how the call
    ended. *)
Definition set_q (st : Store) (self : ODESystem) (idxs : list nat) (Qin : QInput)
  : list Q * result unit :=
  match set_q_flags Qin with
  | Raise e => (q_val (state self), Raise e)
  | Ok (mult_volume, mult_na, q) =>
      set_q_loop st self mult_volume mult_na q idxs (q_val (state self))
  end.

(** The volume of the compartment that owns state position [i]. *)
Definition volume_at (st : Store) (self : ODESystem) (i : nat) : option Quantity :=
  match nth_error (st_compartment (state self)) i with
  | None => None
  | Some lab =>
      match dict_get lab (flat_compartments (model self)) with
      | None => None
      | Some cref => option_map volume (nth_error (comps st) cref)
      end
  end.

(** *** A sample system: two compartments of 2 and 3 liters *)

Definition kon : Quantity := mkQuantity 1000000 (unit_div L (unit_mul mol sec)).
Definition koff : Quantity := mkQuantity (1 # 10) (unit_div dimensionless sec).

(** [Reaction('binding',[drug,receptor],[dr_complex],[1,1],[1],kf=kon,kr=koff)] *)
Definition binding : Reaction :=
  mkReaction ["drug"; "receptor"] ["complex"]
             [mkSpecies "drug"; mkSpecies "receptor"] [mkSpecies "complex"]
             [1%Z; 1%Z] [1%Z] kon koff.

Definition sample_leak : Connection :=
  Anisotropic (mkAnisotropic drug_rates).

Definition sample_store : Store :=
  mkStore
    [ mkCompartment "a" None [(0, 1); (0, 1); (0, 1)] [] (mkQuantity 2 liter)
        [binding] [("b", (1%nat, sample_leak))];
      mkCompartment "b" None [(1, 2); (0, 1); (0, 1)] [] (mkQuantity 3 liter)
        [] [("a", (0%nat, sample_leak))] ]
    [].

Definition sample_state : State :=
  mkState 4 ["a"; "a"; "a"; "b"] ["drug"; "receptor"; "complex"; "drug"]
          [("a", [("drug", 0%nat); ("receptor", 1%nat); ("complex", 2%nat)]);
           ("b", [("drug", 3%nat)])]
          [0; 0; 0; 0].

Definition sample_system : ODESystem :=
  mkSystem (mkFlatModel [("a", 0%nat); ("b", 1%nat)]) sample_state
           (6022 * 10 ^ 20).

(** *** What the derivative builder is expected to hold *)

(** [s in conn[1].species_rates] *)
Definition involves (s : string) (entry : string * (ref * Connection)) : bool :=
  match get_species_rates (snd (snd entry)) with
  | Ok rates => dict_mem s rates
  | Raise _ => false
  end.

(** [t] is the outgoing term of [entry] for species [s] at position [i]:
    [(k_out / V_c, [i])]. *)
Definition is_out_term (c : Compartment) (s : string) (i : nat)
    (entry : string * (ref * Connection)) (t : Term) : Prop :=
  exists rates k_out k_in,
    get_species_rates (snd (snd entry)) = Ok rates /\
    dict_get s rates = Some (Tuple2 k_out k_in) /\
    qdiv k_out (volume c) = Ok (fst t) /\
    snd t = [i].

(** [t] is the incoming term of [entry] for species [s]:
    [(k_in / V_neighbor, [index[other_lab][s]])]. *)
Definition is_in_term (st : Store) (idx : dict (dict nat)) (s : string)
    (entry : string * (ref * Connection)) (t : Term) : Prop :=
  exists rates k_out k_in other row j,
    get_species_rates (snd (snd entry)) = Ok rates /\
    dict_get s rates = Some (Tuple2 k_out k_in) /\
    nth_error (comps st) (fst (snd entry)) = Some other /\
    qdiv k_in (volume other) = Ok (fst t) /\
    dict_get (fst entry) idx = Some row /\
    dict_get s row = Some j /\
    snd t = [j].

(** The sum of the first [n] stoichiometric coefficients. *)
Definition total_order (n : nat) (stoich : list Z) : Z :=
  fold_right Z.add 0%Z (firstn n stoich).

(** Each state index repeated as many times as its coefficient says. *)
Definition repeated_indices (idxs : list nat) (stoich : list Z) : list nat :=
  List.concat (map (fun qm : nat * Z => repeat (fst qm) (Z.to_nat (snd qm)))
              (combine idxs stoich)).

(** [t] is the term of one direction of a reaction in compartment [c]: rate
    constant [k] over the species [xs] with coefficients [stoich]. *)
Definition is_reaction_term (idx : dict (dict nat)) (c : Compartment) (k : Quantity)
    (xs : list Species) (stoich : list Z) (t : Term) : Prop :=
  exists idxs,
    Forall2 (fun x q => exists row, dict_get (ID c) idx = Some row /\
                                    dict_get (species_ID x) row = Some q) xs idxs /\
    (List.length xs <= List.length stoich)%nat /\
    let n := total_order (List.length xs) stoich in
    ((1 < n)%Z -> qdiv k (qpow (volume c) (n - 1)) = Ok (fst t)) /\
    ((n <= 1)%Z -> fst t = k) /\
    snd t = repeated_indices idxs stoich.

(** The terms one direction of a reaction contributes: one term when its
    rate constant is positive, none otherwise. *)
Definition direction_adds (idx : dict (dict nat)) (c : Compartment) (k : Quantity)
    (xs : list Species) (stoich : list Z) (ts : list Term) : Prop :=
  if qpos k
  then exists t, ts = [t] /\ is_reaction_term idx c k xs stoich t
  else ts = [].

(** The sources and sinks that reaction [r] contributes to species [s]. *)
Definition reaction_adds (idx : dict (dict nat)) (c : Compartment) (s : string)
    (r : Reaction) (added : list Term * list Term) : Prop :=
  if str_in s (reactant_IDs r) then
    direction_adds idx c (kf r) (reactants r) (stoich_r r) (snd added) /\
    direction_adds idx c (kr r) (products r) (stoich_p r) (fst added)
  else if str_in s (product_IDs r) then
    direction_adds idx c (kf r) (reactants r) (stoich_r r) (fst added) /\
    direction_adds idx c (kr r) (products r) (stoich_p r) (snd added)
  else added = ([], []).

(** *** Invariants of flattening *)

(** While compartments are added, the store only grows and every value of
    the flat model is an address of the store. *)
Definition namespace_ok (st0 : Store) (acc : Store * FlatModel) : Prop :=
  (exists copies, comps (fst acc) = (comps st0 ++ copies)%list) /\
  (forall key r, In (key, r) (flat_compartments (snd acc)) ->
                 (r < List.length (comps (fst acc)))%nat).

(** The flat model holds the copy of [c] under its flattened ID. *)
Definition holds_copy_of (makeID : option string -> string -> string)
    (acc : Store * FlatModel) (c : Compartment) : Prop :=
  exists r,
    dict_get (makeID (array_ID c) (ID c)) (flat_compartments (snd acc)) = Some r /\
    nth_error (comps (fst acc)) r
      = Some (Compartment_copy c (makeID (array_ID c) (ID c))).

(** *** A sample model with a dangling connection *)

(** IDs of the form [{array_ID}-{compartment_ID_string}], as the docstring
    of [FlatModel] gives them, and the bare ID outside arrays. *)
Definition sample_makeID (a : option string) (id : string) : string :=
  match a with
  | Some arr => arr ++ "-" ++ id
  | None => id
  end.

Definition lonely_store : Store :=
  mkStore
    [ mkCompartment "0_0_0" (Some "bulk") [(0, 1); (0, 1); (0, 1)]
        [("yz", 1); ("xz", 1); ("xy", 1)] (mkQuantity 1 liter) []
        [("bulk-0_0_1", (1%nat, sample_leak))] ]
    [].

Definition lonely_model : Model :=
  mkModel [] [("bulk", mkArray "bulk" [false; false; false] [1; 1; 1]
                         [("0_0_0", 0%nat)])]
          (Some [false; false; false]) (Some [1; 1; 1]).

(** ** Further definitions *)

(** [type(v) is tuple and len(v) == 2] *)
Definition is_tuple (v : RateVal) : bool :=
  match v with
  | Tuple2 _ _ => true
  | Scalar _ => false
  end.

(** Two runs end alike: with the same exception, or with equal numbers. *)
Definition same_outcome (x y : result Q) : Prop :=
  match x, y with
  | Ok a, Ok b => a == b
  | Raise e1, Raise e2 => e1 = e2
  | _, _ => False
  end.

(** The displacement of one axis before any shift. *)
Definition axis_raw (p1 p2 : Q * Q) : Q := center p1 - center p2.

(** *** [Model.add_array] and [Model.__init__]

    [add_array] makes [self.box_len] the very list of the first array it
    receives and later adds to that list in place, so the lists of box
    lengths are objects of their own: an array and a model hold the
    address of a list in a [BoxStore]. *)

Definition BoxStore : Type := list (list Q).

Record ArrayObj : Type := mkArrayObj {
  ao_array_ID : string;
  ao_periodic : list bool;
  ao_box_len : ref;
  ao_compartments : dict ref
}.

Record ModelObj : Type := mkModelObj {
  mo_compartments : dict ref;
  mo_arrays : dict ArrayObj;
  mo_periodic : option (list bool);
  mo_box_len : option ref
}.

Definition box_at (boxes : BoxStore) (r : ref) : result (list Q) :=
  match nth_error boxes r with
  | Some l => Ok l
  | None => Raise dangling
  end.

(** [box[i] = x] on the list at address [r]. *)
Definition box_write (boxes : BoxStore) (r : ref) (i : nat) (x : Q) : BoxStore :=
  match nth_error boxes r with
  | Some l => list_update boxes r (list_update l i x)
  | None => boxes
  end.

(** [p != q] on two lists of booleans, negated. *)
Fixpoint bools_eqb (p q : list bool) : bool :=
  match p, q with
  | [], [] => true
  | a :: p', b :: q' => Bool.eqb a b && bools_eqb p' q'
  | _, _ => false
  end.

Definition incompatible_periodicity : PyError :=
  ValueError "Error! Adding array with incompatible periodicity to model ({0}) ({1})" [].

Definition different_size : PyError :=
  ValueError "Error! Adding array with different size along a periodic dimension ({0}) ({1})" [].

Definition duplicate_array (id : string) : PyError :=
  ValueError "Error! Duplicate array ID in model ({0})" [id].

(** The loop over the dimensions in [add_array]; the lists are read anew at
    each turn, as the model's list may be the array's. *)
Fixpoint stack_boxes (per : option (list bool)) (mbox abox : ref) (idxs : list nat)
    (boxes : BoxStore) : BoxStore * result unit :=
  match idxs with
  | [] => (boxes, Ok tt)
  | i :: rest =>
      match (ml <- box_at boxes mbox ;;
             m <- list_at ml i ;;
             al <- box_at boxes abox ;;
             a <- list_at al i ;;
             Ok (m, a)) with
      | Raise e => (boxes, Raise e)
      | Ok (m, a) =>
          if Qeq_bool m a then stack_boxes per mbox abox rest boxes
          else
            match opt_list_at per i with
            | Raise e => (boxes, Raise e)
            | Ok true => (boxes, Raise different_size)
            | Ok false =>
                stack_boxes per mbox abox rest (box_write boxes mbox i (m + a))
            end
      end
  end.

(** [Model.add_array]; the store and the model after the call, and how the
    call ended. *)
Definition add_array (boxes : BoxStore) (self : ModelObj) (array : ArrayObj)
  : (BoxStore * ModelObj) * result unit :=
  match (match mo_periodic self with
         | None => Ok (Some (ao_periodic array))
         | Some p =>
             if bools_eqb p (ao_periodic array) then Ok (Some p)
             else Raise incompatible_periodicity
         end) with
  | Raise e => ((boxes, self), Raise e)
  | Ok per =>
      let register (boxes' : BoxStore) (box : option ref) :=
        let self' := mkModelObj (mo_compartments self) (mo_arrays self) per box in
        if dict_mem (ao_array_ID array) (mo_arrays self)
        then ((boxes', self'), Raise (duplicate_array (ao_array_ID array)))
        else ((boxes',
               mkModelObj (mo_compartments self)
                          (dict_set (ao_array_ID array) array (mo_arrays self))
                          per box),
              Ok tt) in
      match mo_box_len self with
      | None => register boxes (Some (ao_box_len array))
      | Some mbox =>
          let self' := mkModelObj (mo_compartments self) (mo_arrays self) per
                                  (Some mbox) in
          match box_at boxes (ao_box_len array) with
          | Raise e => ((boxes, self'), Raise e)
          | Ok al =>
              match stack_boxes per mbox (ao_box_len array)
                                (seq 0 (List.length al)) boxes with
              | (boxes', Raise e) => ((boxes', self'), Raise e)
              | (boxes', Ok _) => register boxes' (Some mbox)
              end
          end
      end
  end.

(** The lengths [add_array] leaves when the two lists are different objects
    and every dimension in which they differ is not periodic. *)
Definition stacked (ml al : list Q) : list Q :=
  map (fun ma : Q * Q => if Qeq_bool (fst ma) (snd ma) then fst ma
                         else fst ma + snd ma)
      (combine ml al).

(** Some dimension in which the two lists differ is periodic. *)
Fixpoint periodic_mismatch (per : list bool) (ml al : list Q) : bool :=
  match per, ml, al with
  | p :: per', m :: ml', a :: al' =>
      (negb (Qeq_bool m a) && p) || periodic_mismatch per' ml' al'
  | _, _, _ => false
  end.

(** A model whose box is the list at address 0, holding one array, and a
    second array with a list of its own at address 1. *)
Definition two_boxes : BoxStore := [[10; 10; 2]; [10; 10; 5]].
Definition lower_array : ArrayObj := mkArrayObj "lower" [true; true; false] 0%nat [].
Definition upper_array : ArrayObj := mkArrayObj "upper" [true; true; false] 1%nat [].
Definition one_array_model : ModelObj :=
  mkModelObj [] [("lower", lower_array)] (Some [true; true; false]) (Some 0%nat).

(** [self.<name>] and [attr[k] = c] on a model whose lists are objects, as
    for [Model_getattr] and [Model_setitem]. *)
Inductive ModelObjAttr : Type :=
| OCompartments (d : dict ref)
| OArrays (d : dict ArrayObj)
| OPeriodic (p : option (list bool))
| OBoxLen (b : option ref).

Definition ModelObj_getattr (self : ModelObj) (name : string) : result ModelObjAttr :=
  if String.eqb name "compartments" then Ok (OCompartments (mo_compartments self))
  else if String.eqb name "arrays" then Ok (OArrays (mo_arrays self))
  else if String.eqb name "periodic" then Ok (OPeriodic (mo_periodic self))
  else if String.eqb name "box_len" then Ok (OBoxLen (mo_box_len self))
  else Raise (AttributeError name).

Definition ModelObj_setitem (self : ModelObj) (a : ModelObjAttr) (k : string)
    (c : ref) : result ModelObj :=
  match a with
  | OCompartments d =>
      Ok (mkModelObj (dict_set k c d) (mo_arrays self) (mo_periodic self)
                     (mo_box_len self))
  | _ => Raise (TypeError "object does not support item assignment")
  end.

(** [Model.add_compartment] on such a model. *)
Definition ModelObj_add_compartment (st : Store) (self : ModelObj) (compartment : ref)
  : ModelObj * result unit :=
  match deref_comp st compartment with
  | Raise e => (self, Raise e)
  | Ok c =>
      if dict_mem (ID c) (mo_compartments self)
      then (self, Raise (duplicate_compartment (ID c)))
      else
        match (a <- ModelObj_getattr self "comparments" ;;
               ModelObj_setitem self a (ID c) compartment) with
        | Ok self' => (self', Ok tt)
        | Raise e => (self, Raise e)
        end
  end.

(** [for a in arrays: self.add_array(a)] *)
Fixpoint add_arrays (boxes : BoxStore) (self : ModelObj) (arrays : list ArrayObj)
  : (BoxStore * ModelObj) * result unit :=
  match arrays with
  | [] => ((boxes, self), Ok tt)
  | a :: rest =>
      match add_array boxes self a with
      | ((boxes', self'), Ok _) => add_arrays boxes' self' rest
      | (state', Raise e) => (state', Raise e)
      end
  end.

(** [for c in compartments: self.add_compartment(c)] *)
Fixpoint add_compartments (st : Store) (self : ModelObj) (compartments : list ref)
  : ModelObj * result unit :=
  match compartments with
  | [] => (self, Ok tt)
  | c :: rest =>
      match ModelObj_add_compartment st self c with
      | (self', Ok _) => add_compartments st self' rest
      | (self', Raise e) => (self', Raise e)
      end
  end.

(** [Model.__init__(arrays, compartments)] *)
Definition Model_init (st : Store) (boxes : BoxStore) (arrays : list ArrayObj)
    (compartments : list ref) : (BoxStore * ModelObj) * result unit :=
  match add_arrays boxes (mkModelObj [] [] None None) arrays with
  | ((boxes', self), Ok _) =>
      let (self', r) := add_compartments st self compartments in
      ((boxes', self'), r)
  | (state', Raise e) => (state', Raise e)
  end.

(** The ID a compartment gets in a flat model. *)
Definition flat_id (makeID : option string -> string -> string) (c : Compartment)
  : string :=
  makeID (array_ID c) (ID c).

(** A model with two compartments that flatten to the same ID. *)
Definition twin_store : Store :=
  mkStore
    [ mkCompartment "0" (Some "bulk") [] [] (mkQuantity 1 liter) [] [];
      mkCompartment "bulk-0" None [] [] (mkQuantity 1 liter) [] [] ]
    [].

Definition twin_model : Model :=
  mkModel [("bulk-0", 1%nat)]
          [("bulk", mkArray "bulk" [false] [1] [("0", 0%nat)])]
          (Some [false]) (Some [1]).

(** [not isinstance(conn[1], FicksConnection)] *)
Definition not_ficks (entry : string * (ref * Connection)) : bool :=
  match snd (snd entry) with
  | Ficks _ => false
  | _ => true
  end.

(** Two boxes that touch along no axis, a connection between them without
    surface area, and a model without arrays. *)
Definition apart_store : Store :=
  mkStore [unit_cube "a" (0, 1) (0, 1) (0, 1) 1 1 1;
           unit_cube "b" (5, 6) (5, 6) (5, 6) 1 1 1]
          [mkFicks [("drug", mkQuantity 1 (unit_div (unit_pow meter 2) sec))]
                   None (Some (mkQuantity 1 meter));
           mkFicks [("drug", mkQuantity 1 (unit_div (unit_pow meter 2) sec))]
                   (Some (mkQuantity 1 (unit_pow meter 2))) None].

Definition no_arrays : Model := mkModel [] [] None None.

(* ================================================================= *)
(** * Theorems *)

(** ** Dictionaries *)

Lemma dict_get_set_same {V : Type} (k : string) (v : V) (d : dict V) :
  dict_get k (dict_set k v d) = Some v.
Proof.
  induction d as [| [k' v'] d IH]; simpl.
  - now rewrite String.eqb_refl.
  - destruct (String.eqb k k') eqn:E; simpl; rewrite E; auto.
Qed.

Lemma dict_get_set_other {V : Type} (k k0 : string) (v : V) (d : dict V) :
  k0 <> k -> dict_get k0 (dict_set k v d) = dict_get k0 d.
Proof.
  intros Hne. induction d as [| [k' v'] d IH]; simpl.
  - destruct (String.eqb k0 k) eqn:E; auto.
    apply String.eqb_eq in E. contradiction.
  - destruct (String.eqb k k') eqn:E; simpl.
    + apply String.eqb_eq in E. subst k'.
      destruct (String.eqb k0 k) eqn:E'; auto.
      apply String.eqb_eq in E'. contradiction.
    + destruct (String.eqb k0 k'); auto.
Qed.

Lemma dict_keys_set_mem {V : Type} (k : string) (v : V) (d : dict V) :
  dict_mem k d = true -> dict_keys (dict_set k v d) = dict_keys d.
Proof.
  unfold dict_mem. induction d as [| [k' v'] d IH]; simpl; [discriminate |].
  destruct (String.eqb k k') eqn:E; simpl; auto.
  intros H. now rewrite IH.
Qed.

Lemma dict_mem_set {V : Type} (k k0 : string) (v : V) (d : dict V) :
  dict_mem k0 d = true -> dict_mem k0 (dict_set k v d) = true.
Proof.
  unfold dict_mem. intros H.
  destruct (string_dec k0 k) as [-> | Hne].
  - now rewrite dict_get_set_same.
  - now rewrite dict_get_set_other.
Qed.

Lemma dict_get_in {V : Type} (k : string) (v : V) (d : dict V) :
  NoDup (dict_keys d) -> In (k, v) d -> dict_get k d = Some v.
Proof.
  induction d as [| [k' v'] d IH]; simpl; [tauto |].
  intros Hnd [Heq | Hin]; inversion Hnd; subst.
  - inversion Heq; subst. now rewrite String.eqb_refl.
  - destruct (String.eqb k k') eqn:E; auto.
    apply String.eqb_eq in E. subst k'.
    exfalso. apply H1. unfold dict_keys. now apply (in_map fst _ (k, v)).
Qed.

Lemma dict_get_not_key {V : Type} (k : string) (d : dict V) :
  ~ In k (dict_keys d) -> dict_get k d = None.
Proof.
  induction d as [| [k' v'] d IH]; simpl; auto.
  intros H. destruct (String.eqb k k') eqn:E.
  - apply String.eqb_eq in E. subst. tauto.
  - apply IH. tauto.
Qed.

Lemma dict_get_key {V : Type} (k : string) (d : dict V) :
  In k (dict_keys d) -> exists v, dict_get k d = Some v.
Proof.
  induction d as [| [k' v'] d IH]; simpl; [tauto |].
  intros [-> | Hin].
  - rewrite String.eqb_refl. eauto.
  - destruct (String.eqb k k'); eauto.
Qed.

(** ** Connections *)

(** Every non-empty [species_rates] makes [reverse] fail at its first key:
    [_flip_tuple] receives the instance and the tuple. *)
Lemma reverse_nonempty_raises (self : AnisotropicConnection) :
  aniso_species_rates self <> [] ->
  reverse self =
    Raise (TypeError "_flip_tuple() takes 1 positional argument but 2 were given").
Proof.
  destruct self as [d]. simpl. intros Hne.
  destruct d as [| [k v] d]; [congruence |].
  unfold reverse. simpl. unfold dict_item. simpl.
  now rewrite String.eqb_refl.
Qed.

Lemma reverse_empty : reverse (mkAnisotropic []) = Ok (mkAnisotropic []).
Proof. reflexivity. Qed.

(** C9: on the connection of the membrane example, whose rates are
    [{'drug': (1e-5/s, 1e-1/s)}], the constructor accepts the dictionary and
    [reverse] raises [TypeError] instead of returning the connection with the
    pair swapped. *)
Theorem reverse_drug_raises :
  AnisotropicConnection_init drug_rates = Ok (mkAnisotropic drug_rates) /\
  reverse (mkAnisotropic drug_rates) =
    Raise (TypeError "_flip_tuple() takes 1 positional argument but 2 were given").
Proof. split; reflexivity. Qed.

(** *** [IsotropicConnection.__init__] *)

Lemma iso_init_loop (ks : list string) : forall d : dict RateVal,
  (forall k, In k ks -> dict_mem k d = true) ->
  exists d',
    for_each (fun d s =>
                k <- dict_item s d ;;
                match k with
                | Tuple2 _ _ => Ok d
                | Scalar q => Ok (dict_set s (Tuple2 q q) d)
                end) ks d = Ok d' /\
    forall s, dict_get s d' =
              if in_dec string_dec s ks
              then option_map as_pair (dict_get s d) else dict_get s d.
Proof.
  induction ks as [| k ks IH]; intros d Hmem.
  - exists d. split; [reflexivity |]. intros s. now destruct (in_dec string_dec s []).
  - assert (Hk : dict_mem k d = true) by (apply Hmem; now left).
    unfold dict_mem in Hk. destruct (dict_get k d) as [v |] eqn:Hget; [| discriminate].
    cbn [for_each]. unfold dict_item at 1. rewrite Hget. cbn [bind].
    destruct v as [q | a b]; cbn [bind].
    + destruct (IH (dict_set k (Tuple2 q q) d)) as [d' [Hrun Hd']].
      { intros k0 Hin. apply dict_mem_set. apply Hmem. now right. }
      exists d'. split; [exact Hrun |].
      intros s. rewrite Hd'.
      destruct (string_dec s k) as [-> | Hne].
      * rewrite dict_get_set_same, Hget.
        destruct (in_dec string_dec k (k :: ks)) as [_ | n];
          [| exfalso; apply n; now left].
        now destruct (in_dec string_dec k ks).
      * rewrite dict_get_set_other by exact Hne.
        destruct (in_dec string_dec s ks), (in_dec string_dec s (k :: ks));
          simpl in *; try reflexivity.
        -- exfalso; apply n; now right.
        -- destruct i as [E | E]; [congruence | contradiction].
    + destruct (IH d) as [d' [Hrun Hd']].
      { intros k0 Hin. apply Hmem. now right. }
      exists d'. split; [exact Hrun |].
      intros s. rewrite Hd'.
      destruct (in_dec string_dec s ks), (in_dec string_dec s (k :: ks));
        simpl in *; try reflexivity.
      * exfalso; apply n; now right.
      * destruct i as [E | E]; [| contradiction]. subst s.
        now rewrite Hget.
Qed.

(** The constructor never fails, and every value it keeps is a pair. *)
Lemma IsotropicConnection_init_spec (d : dict RateVal) :
  exists iso, IsotropicConnection_init d = Ok iso /\
    forall s, dict_get s (iso_species_rates iso) = option_map as_pair (dict_get s d).
Proof.
  unfold IsotropicConnection_init.
  destruct (iso_init_loop (dict_keys d) d) as [d' [Hrun Hd']].
  { intros k Hin. unfold dict_mem. destruct (dict_get_key k d Hin) as [v ->]. reflexivity. }
  exists (mkIsotropic d'). rewrite Hrun. split; [reflexivity |].
  intros s. simpl. rewrite Hd'.
  destruct (in_dec string_dec s (dict_keys d)); [reflexivity |].
  now rewrite dict_get_not_key.
Qed.

(** *** [FicksConnection.resolve] *)

Section ResolveLoop.
Variables A dx : Quantity.

Let body := fun (rates : dict RateVal) (sd : string * Quantity) =>
              k <- ficks_rate (snd sd) A dx ;;
              Ok (dict_set (fst sd) (Scalar k) rates).

Lemma resolve_loop_frame (l : dict Quantity) : forall acc r s,
  for_each body l acc = Ok r -> ~ In s (dict_keys l) ->
  dict_get s r = dict_get s acc.
Proof.
  induction l as [| [s0 d0] l IH]; intros acc r s Hrun Hnot; simpl in *.
  - now inversion Hrun.
  - unfold body at 1 in Hrun. simpl in Hrun.
    destruct (ficks_rate d0 A dx) as [k0 | e]; simpl in Hrun; [| discriminate].
    rewrite (IH _ _ s Hrun) by tauto.
    apply dict_get_set_other. intros ->. tauto.
Qed.

Lemma resolve_loop_ok (l : dict Quantity) : forall acc r,
  NoDup (dict_keys l) -> for_each body l acc = Ok r ->
  forall s d, In (s, d) l ->
    exists k, ficks_rate d A dx = Ok k /\ dict_get s r = Some (Scalar k).
Proof.
  induction l as [| [s0 d0] l IH]; intros acc r Hnd Hrun s d Hin; simpl in *.
  - contradiction.
  - inversion Hnd as [| ? ? Hnotin Hnd']; subst.
    unfold body at 1 in Hrun. simpl in Hrun.
    destruct (ficks_rate d0 A dx) as [k0 | e] eqn:Hk; simpl in Hrun; [| discriminate].
    destruct Hin as [Heq | Hin].
    + inversion Heq; subst. exists k0. split; [exact Hk |].
      rewrite (resolve_loop_frame _ _ _ s Hrun Hnotin).
      apply dict_get_set_same.
    + exact (IH _ _ Hnd' Hrun s d Hin).
Qed.

Lemma resolve_loop_raise (l : dict Quantity) : forall acc e,
  for_each body l acc = Raise e ->
  exists s d, In (s, d) l /\ ficks_rate d A dx = Raise e.
Proof.
  induction l as [| [s0 d0] l IH]; intros acc e Hrun; simpl in *.
  - discriminate.
  - unfold body at 1 in Hrun. simpl in Hrun.
    destruct (ficks_rate d0 A dx) as [k0 | e0] eqn:Hk; simpl in Hrun.
    + destruct (IH _ _ Hrun) as [s [d [Hin Hr]]]. exists s, d. tauto.
    + inversion Hrun; subst. exists s0, d0. split; [now left | exact Hk].
Qed.

Lemma resolve_loop_total (l : dict Quantity) : forall acc,
  (forall s d, In (s, d) l -> is_ok (ficks_rate d A dx) = true) ->
  exists r, for_each body l acc = Ok r.
Proof.
  induction l as [| [s0 d0] l IH]; intros acc Hall; simpl.
  - eauto.
  - unfold body at 1. simpl.
    assert (H0 : is_ok (ficks_rate d0 A dx) = true) by (apply (Hall s0); now left).
    destruct (ficks_rate d0 A dx) as [k0 | e]; [| discriminate]. simpl.
    apply IH. intros s d Hin. apply (Hall s). now right.
Qed.
End ResolveLoop.

(** The rate of one species: defined exactly when the distance is not zero
    and [D*A/dx] has the dimension of a volume per time; its value is then
    [D*A/dx] expressed in liters per second. *)
Lemma ficks_rate_ok (d A dx k : Quantity) :
  ficks_rate d A dx = Ok k ->
  units k = liter_per_sec /\
  magnitude k =
    (magnitude d * magnitude A / magnitude dx)
    * (scale (unit_div (unit_mul (units d) (units A)) (units dx)) / scale liter_per_sec).
Proof.
  unfold ficks_rate, qdiv.
  destruct (Qeq_bool (magnitude dx) 0); simpl; [discriminate |].
  unfold ito. simpl.
  destruct (dim_eqb _ _); [| discriminate].
  intros H. inversion H. simpl. split; reflexivity.
Qed.

Lemma ficks_rate_fails_iff (d A dx : Quantity) :
  is_ok (ficks_rate d A dx) = false <->
  magnitude dx == 0 \/
  dim_eqb (dim_div (dim_mul (dim (units d)) (dim (units A))) (dim (units dx)))
          (dim liter_per_sec) = false.
Proof.
  unfold ficks_rate, qdiv.
  destruct (Qeq_bool (magnitude dx) 0) eqn:Hz; simpl.
  - apply Qeq_bool_iff in Hz. tauto.
  - unfold ito. simpl.
    destruct (dim_eqb _ _) eqn:Hd; simpl.
    + split; [discriminate |]. intros [H | H]; [| discriminate].
      apply Qeq_bool_iff in H. congruence.
    + tauto.
Qed.

(** C5 (as amended): for a connection whose distance, when bound, is not
    zero, [resolve] raises exactly when the surface area or the distance is
    unbound or, both being bound, [D*A/dx] of some species does not have
    the dimension of a volume per time, so that its conversion fails.  When
    it returns, the connection maps every species to the symmetric pair
    [(k, k)], where [k] is [D*A/dx] expressed in liters per second. *)
Theorem resolve_spec (self : FicksConnection) :
  NoDup (dict_keys (species_d_constants self)) ->
  (forall dx, ic_distance self = Some dx -> ~ magnitude dx == 0) ->
  (is_ok (resolve self) = false <->
     surface_area self = None \/ ic_distance self = None \/
     exists A dx s d,
       surface_area self = Some A /\ ic_distance self = Some dx /\
       In (s, d) (species_d_constants self) /\
       dim_eqb (dim_div (dim_mul (dim (units d)) (dim (units A))) (dim (units dx)))
               (dim liter_per_sec) = false) /\
  (forall iso, resolve self = Ok iso ->
     exists A dx,
       surface_area self = Some A /\ ic_distance self = Some dx /\
       forall s d, In (s, d) (species_d_constants self) ->
         exists k,
           dict_get s (iso_species_rates iso) = Some (Tuple2 k k) /\
           units k = liter_per_sec /\
           magnitude k =
             (magnitude d * magnitude A / magnitude dx)
             * (scale (unit_div (unit_mul (units d) (units A)) (units dx))
                / scale liter_per_sec)).
Proof.
  intros Hnd Hnz. destruct self as [consts [A |] [dx |]]; unfold resolve; simpl;
    try (split; [split; [tauto | reflexivity] | discriminate]).
  simpl in Hnz. specialize (Hnz dx eq_refl).
  split.
  - split.
    + intros Hfail. right. right.
      destruct (resolve_rates A dx consts) as [rates | e] eqn:Hrun.
      * simpl in Hfail.
        destruct (IsotropicConnection_init_spec rates) as [iso [Hinit _]].
        rewrite Hinit in Hfail. discriminate.
      * destruct (resolve_loop_raise A dx consts [] e Hrun) as [s [d [Hin Hr]]].
        exists A, dx, s, d. repeat split; auto.
        assert (Hbad : is_ok (ficks_rate d A dx) = false) by now rewrite Hr.
        apply ficks_rate_fails_iff in Hbad. destruct Hbad as [Hz | Hd];
          [contradiction | exact Hd].
    + intros [H | [H | H]]; try discriminate.
      destruct H as [A' [dx' [s [d [HA [Hdx [Hin Hbad]]]]]]].
      inversion HA; inversion Hdx; subst A' dx'.
      assert (Hfail : is_ok (ficks_rate d A dx) = false)
        by (apply ficks_rate_fails_iff; now right).
      destruct (resolve_rates A dx consts) as [rates | e] eqn:Hrun; [| reflexivity].
      destruct (resolve_loop_ok A dx consts [] rates Hnd Hrun s d Hin) as [k [Hk _]].
      rewrite Hk in Hfail. discriminate.
  - intros iso Hres. exists A, dx. repeat split.
    intros s d Hin.
    destruct (resolve_rates A dx consts) as [rates | e] eqn:Hrun; [| discriminate].
    simpl in Hres.
    destruct (resolve_loop_ok A dx consts [] rates Hnd Hrun s d Hin) as [k [Hk Hget]].
    destruct (IsotropicConnection_init_spec rates) as [iso' [Hinit Hiso]].
    rewrite Hinit in Hres. inversion Hres; subst iso'.
    exists k. rewrite Hiso, Hget. simpl. split; [reflexivity |].
    exact (ficks_rate_ok d A dx k Hk).
Qed.

Lemma resolve_spec_witness :
  exists iso, resolve ficks_slab = Ok iso /\
    exists k, dict_get "drug" (iso_species_rates iso) = Some (Tuple2 k k) /\
              units k = liter_per_sec.
Proof.
  assert (Hnd : NoDup (dict_keys (species_d_constants ficks_slab))).
  { simpl. constructor; [simpl; tauto | constructor]. }
  assert (Hnz : forall dx, ic_distance ficks_slab = Some dx -> ~ magnitude dx == 0).
  { intros dx H. inversion H. simpl. discriminate. }
  destruct (resolve_spec ficks_slab Hnd Hnz) as [_ Hok].
  destruct (resolve ficks_slab) as [iso | e] eqn:Hres; [| vm_compute in Hres; discriminate].
  exists iso. split; [reflexivity |].
  destruct (Hok iso eq_refl) as [A [dx [_ [_ Hall]]]].
  destruct (Hall "drug" (mkQuantity (1 # 100000000)
              (unit_div (unit_pow (mkUnit (1 # 100) (mkDim 1 0 0)) 2) sec)))
    as [k [Hget [Hu _]]]; [simpl; now left |].
  exists k. split; assumption.
Defined.

(** C5, counterexample: with both the surface area and the distance bound,
    [resolve] still raises when the diffusion constant has the wrong
    dimension, so an error does not imply that one of them is unbound. *)
Lemma resolve_raises_when_bound :
  ~ (forall self : FicksConnection,
       (exists e, resolve self = Raise e) <->
       (surface_area self = None \/ ic_distance self = None)).
Proof.
  intros H.
  destruct (H ficks_bad_units) as [Hfwd _].
  assert (Hr : exists e, resolve ficks_bad_units = Raise e).
  { exists DimensionalityError. reflexivity. }
  destruct (Hfwd Hr) as [Hn | Hn]; discriminate.
Qed.

(** ** [Model.add_compartment] *)

(** C10: the call raises [ValueError] on an ID that is already a key of
    [compartments] and [AttributeError] (for the attribute [comparments])
    on every other ID, and in both cases the model's [compartments] are the
    ones it had before. *)
Theorem add_compartment_never_adds (self : Model) (id : string) (c : ref) :
  Model_add_compartment self id c =
    (self,
     Raise (if dict_mem id (compartments self)
            then duplicate_compartment id
            else AttributeError "comparments")).
Proof.
  unfold Model_add_compartment.
  destruct (dict_mem id (compartments self)); reflexivity.
Qed.

(** ** Geometry of [Model.resolve_ficks] *)

Lemma py_min_spec (a b : Q) :
  py_min a b <= a /\ py_min a b <= b /\ (py_min a b = a \/ py_min a b = b).
Proof.
  unfold py_min. destruct (b ?= a) eqn:E.
  - apply Qeq_alt in E. repeat split; [apply Qle_refl | | now left].
    rewrite E. apply Qle_refl.
  - apply Qlt_alt in E. repeat split; [now apply Qlt_le_weak | apply Qle_refl | now right].
  - apply Qgt_alt in E. repeat split; [apply Qle_refl | now apply Qlt_le_weak | now left].
Qed.

Lemma min_face_ok (face : string) (c1 c2 : Compartment) (a1 a2 : Q) :
  dict_get face (face_area c1) = Some a1 ->
  dict_get face (face_area c2) = Some a2 ->
  min_face face c1 c2 = Ok (py_min a1 a2).
Proof.
  intros H1 H2. unfold min_face, dict_item. now rewrite H1, H2.
Qed.

(** C6 (as amended): when the surface area is absent it is the minimum of
    the two compartments' face areas on the first axis, in the order x, y,
    z, along which the two boxes touch (one's maximum is the other's
    minimum); touching along several axes is not an error, and touching
    along none is. *)
Theorem compute_surface_area_spec (c1 c2 : Compartment)
    (x1 y1 z1 x2 y2 z2 : Q * Q) (yz1 xz1 xy1 yz2 xz2 xy2 : Q) :
  pos c1 = [x1; y1; z1] -> pos c2 = [x2; y2; z2] ->
  dict_get "yz" (face_area c1) = Some yz1 -> dict_get "yz" (face_area c2) = Some yz2 ->
  dict_get "xz" (face_area c1) = Some xz1 -> dict_get "xz" (face_area c2) = Some xz2 ->
  dict_get "xy" (face_area c1) = Some xy1 -> dict_get "xy" (face_area c2) = Some xy2 ->
  (adjoining x1 x2 = true ->
     compute_surface_area c1 c2 = Ok (py_min yz1 yz2)) /\
  (adjoining x1 x2 = false -> adjoining y1 y2 = true ->
     compute_surface_area c1 c2 = Ok (py_min xz1 xz2)) /\
  (adjoining x1 x2 = false -> adjoining y1 y2 = false -> adjoining z1 z2 = true ->
     compute_surface_area c1 c2 = Ok (py_min xy1 xy2)) /\
  (adjoining x1 x2 = false -> adjoining y1 y2 = false -> adjoining z1 z2 = false ->
     compute_surface_area c1 c2 = Raise no_adjoining_face) /\
  (forall a b : Q, py_min a b <= a /\ py_min a b <= b /\
                   (py_min a b = a \/ py_min a b = b)).
Proof.
  intros P1 P2 Hyz1 Hyz2 Hxz1 Hxz2 Hxy1 Hxy2.
  unfold compute_surface_area. rewrite P1, P2. simpl.
  rewrite (min_face_ok "yz" c1 c2 yz1 yz2 Hyz1 Hyz2),
          (min_face_ok "xz" c1 c2 xz1 xz2 Hxz1 Hxz2),
          (min_face_ok "xy" c1 c2 xy1 xy2 Hxy1 Hxy2).
  repeat split; try (intros; repeat match goal with H : adjoining _ _ = _ |- _ =>
                                       rewrite H; clear H end; reflexivity);
    apply py_min_spec.
Qed.

Lemma compute_surface_area_spec_witness :
  compute_surface_area face_a face_b = Ok 1.
Proof.
  destruct (compute_surface_area_spec face_a face_b
              (0, 1) (0, 1) (0, 1) (1, 3) (0, 1) (0, 1) 1 1 1 1 2 2
              eq_refl eq_refl eq_refl eq_refl eq_refl eq_refl eq_refl eq_refl)
    as [Hx _].
  exact (Hx eq_refl).
Defined.

(** C6, counterexample: the boxes [corner_a] and [corner_b] touch along x
    and along y, and the surface area is computed (from the yz faces)
    without any error. *)
Lemma ambiguous_contact_is_no_error :
  adjoining (0, 1) (1, 2) = true /\
  pos corner_a = [(0, 1); (0, 1); (0, 1)] /\
  pos corner_b = [(1, 2); (1, 2); (0, 1)] /\
  compute_surface_area corner_a corner_b = Ok 1.
Proof. repeat split. Qed.

Lemma wrap_by_one_length (len dc : Q) :
  wrap len dc = dc + len \/ wrap len dc = dc \/ wrap len dc = dc - len.
Proof.
  unfold wrap. destruct (dc * 2 ?= - len); auto; destruct (dc * 2 ?= len); auto.
Qed.

Lemma wrap_in_half_box (len dc : Q) :
  - (3 * len) <= 2 * dc -> 2 * dc <= 3 * len ->
  - len <= 2 * wrap len dc /\ 2 * wrap len dc <= len.
Proof.
  intros Hlo Hhi. unfold wrap.
  destruct (dc * 2 ?= - len) eqn:E1.
  - apply Qeq_alt in E1.
    destruct (dc * 2 ?= len) eqn:E2.
    + apply Qeq_alt in E2. lra.
    + apply Qlt_alt in E2. lra.
    + apply Qgt_alt in E2. lra.
  - apply Qlt_alt in E1. lra.
  - apply Qgt_alt in E1.
    destruct (dc * 2 ?= len) eqn:E2.
    + apply Qeq_alt in E2. lra.
    + apply Qlt_alt in E2. lra.
    + apply Qgt_alt in E2. lra.
Qed.

Lemma wrap_unchanged_inside (len dc : Q) :
  - len <= 2 * dc -> 2 * dc <= len -> wrap len dc = dc.
Proof.
  intros Hlo Hhi. unfold wrap.
  destruct (dc * 2 ?= - len) eqn:E1.
  - destruct (dc * 2 ?= len) eqn:E2; auto. apply Qgt_alt in E2. lra.
  - apply Qlt_alt in E1. lra.
  - destruct (dc * 2 ?= len) eqn:E2; auto. apply Qgt_alt in E2. lra.
Qed.

(** C7 (as amended): when the distance is absent it is [np.sqrt] of the sum
    over the three axes of the squared center displacement, where the
    displacement of a periodic axis is shifted by at most one box length
    (by [+L] when twice the displacement is below [-L], by [-L] when it is
    above [L]) and that of a non-periodic axis is left as it is.  The
    shifted displacement lies in [-L/2, L/2] whenever the displacement is
    within [3L/2] in absolute value, and each axis is treated on its own. *)
Theorem ic_distance_spec (np_sqrt : Q -> Q) (length_unit : Unit)
    (self : Model) (c1 c2 : Compartment) (conn : FicksConnection)
    (x1 y1 z1 x2 y2 z2 : Q * Q) (px py pz : bool) (lx ly lz : Q) :
  pos c1 = [x1; y1; z1] -> pos c2 = [x2; y2; z2] ->
  periodic self = Some [px; py; pz] -> box_len self = Some [lx; ly; lz] ->
  ic_distance conn = None ->
  let s := 0 + axis_term px lx x1 x2 ^ 2 + axis_term py ly y1 y2 ^ 2
           + axis_term pz lz z1 z2 ^ 2 in
  squared_distance self c1 c2 = Ok s /\
  bind_ic_distance length_unit np_sqrt self c1 c2 conn =
    Ok (mkFicks (species_d_constants conn) (surface_area conn)
                (Some (mkQuantity (np_sqrt s) length_unit))) /\
  (forall len dc : Q,
     (wrap len dc = dc + len \/ wrap len dc = dc \/ wrap len dc = dc - len) /\
     (- (3 * len) <= 2 * dc -> 2 * dc <= 3 * len ->
      - len <= 2 * wrap len dc /\ 2 * wrap len dc <= len)).
Proof.
  intros P1 P2 Hper Hbox Hnone s.
  assert (Hs : squared_distance self c1 c2 = Ok s).
  { unfold squared_distance, center_displacements, wrapped_displacement.
    rewrite P1, P2, Hper, Hbox. subst s. unfold axis_term.
    destruct px, py, pz; reflexivity. }
  split; [exact Hs |]. split.
  - unfold bind_ic_distance. now rewrite Hnone, Hs.
  - intros len dc. split; [apply wrap_by_one_length | apply wrap_in_half_box].
Qed.

Lemma ic_distance_spec_witness :
  squared_distance periodic_xy near_a far_b =
    Ok (0 + axis_term true 10 (9, 10) (0, 1) ^ 2
        + axis_term true 10 (0, 1) (0, 1) ^ 2
        + axis_term false 10 (0, 1) (0, 1) ^ 2) /\
  axis_term true 10 (9, 10) (0, 1) == -1.
Proof.
  destruct (ic_distance_spec (fun x => x) meter periodic_xy near_a far_b
              (mkFicks [] None None)
              (9, 10) (0, 1) (0, 1) (0, 1) (0, 1) (0, 1) true true false 10 10 10
              eq_refl eq_refl eq_refl eq_refl eq_refl) as [Hs _].
  split; [exact Hs | reflexivity].
Defined.

(** C7, counterexample: in a box of length 10 that is periodic along x, two
    compartments whose centers are 20 apart along x keep a displacement of
    10 after the shift, which is outside [-5, 5]. *)
Lemma wrap_leaves_half_box :
  periodic periodic_xy = Some [true; true; false] /\
  box_len periodic_xy = Some [10; 10; 10] /\
  center (20, 21) - center (0, 1) == 20 /\
  wrapped_displacement periodic_xy 0 (center (20, 21) - center (0, 1))
    = Ok (center (20, 21) - center (0, 1) - 10) /\
  ~ (center (20, 21) - center (0, 1) - 10 <= 10 / 2) /\
  exists s, squared_distance periodic_xy far_a far_b = Ok s /\ s == 100.
Proof.
  split; [reflexivity |]. split; [reflexivity |].
  split; [reflexivity |]. split; [reflexivity |].
  split.
  - intros H. vm_compute in H. apply H. reflexivity.
  - eexists. split; [reflexivity | vm_compute; reflexivity].
Qed.

(** ** Lists written by index *)

Lemma list_update_length {A : Type} (l : list A) : forall i x,
  List.length (list_update l i x) = List.length l.
Proof.
  induction l as [| y l IH]; intros [| i] x; simpl; auto.
Qed.

Lemma nth_error_update_same {A : Type} (l : list A) : forall i x,
  (i < List.length l)%nat -> nth_error (list_update l i x) i = Some x.
Proof.
  induction l as [| y l IH]; intros [| i] x H; simpl in *; try lia; auto.
  apply IH. lia.
Qed.

Lemma nth_error_update_other {A : Type} (l : list A) : forall i j x,
  i <> j -> nth_error (list_update l i x) j = nth_error l j.
Proof.
  induction l as [| y l IH]; intros [| i] [| j] x H; simpl; auto; try congruence.
Qed.

(** ** [ODESystem.set_q] *)

Section SetQ.
Variable st : Store.
Variable self : ODESystem.
Variables mult_volume mult_na : bool.
Variable q : PintQuantity.

Lemma set_q_loop_ok (idxs : list nat) : forall qv : list Q,
  (forall i, In i idxs ->
     (i < List.length qv)%nat /\
     exists v, set_q_value st self mult_volume mult_na q i = Ok v) ->
  exists qv',
    set_q_loop st self mult_volume mult_na q idxs qv = (qv', Ok tt) /\
    List.length qv' = List.length qv /\
    forall j,
      (In j idxs -> exists v, set_q_value st self mult_volume mult_na q j = Ok v /\
                              nth_error qv' j = Some v) /\
      (~ In j idxs -> nth_error qv' j = nth_error qv j).
Proof.
  induction idxs as [| i rest IH]; intros qv Hall.
  - exists qv. simpl. repeat split; tauto.
  - destruct (Hall i (or_introl eq_refl)) as [Hlt [v Hv]].
    simpl. rewrite Hv.
    apply Nat.ltb_lt in Hlt as Hltb. rewrite Hltb.
    destruct (IH (list_update qv i v)) as [qv' [Hrun [Hlen Hget]]].
    { intros k Hk. rewrite list_update_length. apply Hall. now right. }
    exists qv'. split; [exact Hrun |]. split.
    { now rewrite Hlen, list_update_length. }
    intros j. split.
    + intros [-> | Hin].
      * destruct (in_dec Nat.eq_dec j rest) as [Hin | Hnot].
        -- now apply Hget.
        -- exists v. split; [exact Hv |].
           destruct (Hget j) as [_ Hsame]. rewrite (Hsame Hnot).
           now apply nth_error_update_same.
      * now apply Hget.
    + intros Hnot. destruct (Hget j) as [_ Hsame].
      rewrite Hsame by tauto.
      apply nth_error_update_other. tauto.
Qed.
End SetQ.

Lemma set_q_value_concentration (st : Store) (self : ODESystem) (q : PintQuantity)
    (V : Quantity) (i : nat) :
  volume_at st self i = Some V ->
  set_q_value st self true true q i = Ok (magnitude V * p_magnitude q * NA self).
Proof.
  unfold volume_at, set_q_value, list_at, dict_item, deref_comp.
  destruct (nth_error (st_compartment (state self)) i) as [lab |] eqn:E1;
    [| discriminate].
  destruct (dict_get lab (flat_compartments (model self))) as [cref |] eqn:E2;
    [| discriminate].
  destruct (nth_error (comps st) cref) as [c |] eqn:E3; [| discriminate].
  simpl. intros H. inversion H. subst V.
  rewrite E2. simpl. rewrite E3. reflexivity.
Qed.

Lemma dict_get_entry {V : Type} (k : string) (v : V) (d : dict V) :
  dict_get k d = Some v -> In (k, v) d.
Proof.
  induction d as [| [k' v'] d IH]; simpl; [discriminate |].
  destruct (String.eqb_spec k k') as [-> | Hne].
  - intros H. inversion H. now left.
  - intros H. right. now apply IH.
Qed.

(** Equal units give every unit name the same exponent. *)
Lemma names_eqb_exp (u v : UnitNames) :
  names_eqb u v = true -> forall n, name_exp n u = name_exp n v.
Proof.
  unfold names_eqb. rewrite andb_true_iff, !forallb_forall. intros [Hu Hv] n.
  unfold name_exp at 1. destruct (dict_get n u) as [e |] eqn:E.
  - apply dict_get_entry in E. specialize (Hu _ E). simpl in Hu.
    now apply Z.eqb_eq in Hu.
  - unfold name_exp. destruct (dict_get n v) as [e' |] eqn:E'; [| reflexivity].
    apply dict_get_entry in E'. specialize (Hv _ E'). simpl in Hv.
    apply Z.eqb_eq in Hv. unfold name_exp in Hv. rewrite E in Hv. now subst.
Qed.

Lemma names_eqb_other (u a b : UnitNames) (n : string) :
  names_eqb u a = true -> name_exp n a <> name_exp n b -> names_eqb u b = false.
Proof.
  intros Ha Hne. destruct (names_eqb u b) eqn:Hb; [| reflexivity].
  exfalso. apply Hne.
  rewrite <- (names_eqb_exp _ _ Ha n). exact (names_eqb_exp _ _ Hb n).
Qed.

(** C8 (as amended): for a list of state indices inside the state vector,
    [set_q] stores, at each listed index, [magnitude(Q) * magnitude(V) * NA]
    for a quantity whose units are [mol/L], where [V] is the volume of the
    compartment that owns that index, [magnitude(Q) * NA] for a quantity
    whose units are [mol], and the number itself for a bare or
    dimensionless input, leaving every other index as it was; a quantity
    with any other units, a concentration or an amount in other units
    included, raises [ValueError] and nothing is written. *)
Theorem set_q_spec (st : Store) (self : ODESystem) (idxs : list nat) :
  (forall i, In i idxs -> (i < List.length (q_val (state self)))%nat) ->
  (forall q, names_eqb (p_units q) mol_per_L = true ->
     (forall i, In i idxs -> exists V, volume_at st self i = Some V) ->
     exists qv, set_q st self idxs (WithUnits q) = (qv, Ok tt) /\
       forall i,
         (In i idxs -> exists V v, volume_at st self i = Some V /\
                                   nth_error qv i = Some v /\
                                   v == p_magnitude q * magnitude V * NA self) /\
         (~ In i idxs -> nth_error qv i = nth_error (q_val (state self)) i)) /\
  (forall q, names_eqb (p_units q) unit_mol = true ->
     exists qv, set_q st self idxs (WithUnits q) = (qv, Ok tt) /\
       forall i,
         (In i idxs -> nth_error qv i = Some (p_magnitude q * NA self)) /\
         (~ In i idxs -> nth_error qv i = nth_error (q_val (state self)) i)) /\
  (forall Qin x,
     Qin = Bare x \/
     (exists q, Qin = WithUnits q /\
                names_eqb (p_units q) unit_dimensionless = true /\
                p_magnitude q = x) ->
     exists qv, set_q st self idxs Qin = (qv, Ok tt) /\
       forall i,
         (In i idxs -> nth_error qv i = Some x) /\
         (~ In i idxs -> nth_error qv i = nth_error (q_val (state self)) i)) /\
  (forall q, names_eqb (p_units q) mol_per_L = false ->
             names_eqb (p_units q) unit_mol = false ->
             names_eqb (p_units q) unit_dimensionless = false ->
     set_q st self idxs (WithUnits q) = (q_val (state self), Raise bad_quantity)).
Proof.
  intros Hrange. repeat apply conj.
  - intros q Hu Hvol. unfold set_q, set_q_flags. rewrite Hu.
    destruct (set_q_loop_ok st self true true q idxs (q_val (state self)))
      as [qv [Hrun [_ Hget]]].
    { intros i Hi. split; [now apply Hrange |].
      destruct (Hvol i Hi) as [V HV]. eexists.
      exact (set_q_value_concentration st self q V i HV). }
    exists qv. split; [exact Hrun |].
    intros i. split; [| apply Hget].
    intros Hi. destruct (Hget i) as [Hin _]. destruct (Hin Hi) as [v [Hv Hnth]].
    destruct (Hvol i Hi) as [V HV].
    rewrite (set_q_value_concentration st self q V i HV) in Hv.
    exists V, v. split; [exact HV |]. split; [exact Hnth |].
    inversion Hv. ring.
  - intros q Hu. unfold set_q, set_q_flags.
    rewrite (names_eqb_other _ _ mol_per_L "liter" Hu) by discriminate.
    rewrite Hu.
    destruct (set_q_loop_ok st self false true q idxs (q_val (state self)))
      as [qv [Hrun [_ Hget]]].
    { intros i Hi. split; [now apply Hrange | eexists; reflexivity]. }
    exists qv. split; [exact Hrun |].
    intros i. split; [| apply Hget].
    intros Hi. destruct (Hget i) as [Hin _]. destruct (Hin Hi) as [v [Hv Hnth]].
    unfold set_q_value in Hv. simpl in Hv. inversion Hv. subst v. exact Hnth.
  - intros Qin x Hin.
    assert (Hflags : exists q', set_q_flags Qin = Ok (false, false, q') /\
                                p_magnitude q' = x).
    { destruct Hin as [-> | [q [-> [Hu Hx]]]].
      - eexists. split; reflexivity.
      - exists q. split; [| exact Hx]. unfold set_q_flags.
        rewrite (names_eqb_other _ _ mol_per_L "mole" Hu) by discriminate.
        rewrite (names_eqb_other _ _ unit_mol "mole" Hu) by discriminate.
        now rewrite Hu. }
    destruct Hflags as [q' [Hflags Hx]].
    unfold set_q. rewrite Hflags.
    destruct (set_q_loop_ok st self false false q' idxs (q_val (state self)))
      as [qv [Hrun [_ Hget]]].
    { intros i Hi. split; [now apply Hrange | eexists; reflexivity]. }
    exists qv. split; [exact Hrun |].
    intros i. split; [| apply Hget].
    intros Hi. destruct (Hget i) as [Hin' _]. destruct (Hin' Hi) as [v [Hv Hnth]].
    unfold set_q_value in Hv. simpl in Hv. inversion Hv. subst v x. exact Hnth.
  - intros q H1 H2 H3. unfold set_q, set_q_flags.
    now rewrite H1, H2, H3.
Qed.

Lemma set_q_spec_witness :
  exists qv,
    set_q sample_store sample_system [0; 3]%nat
          (WithUnits (mkPint (1 # 100) mol_per_L)) = (qv, Ok tt) /\
    (exists v, nth_error qv 0 = Some v /\ v == (1 # 100) * 2 * NA sample_system) /\
    (exists v, nth_error qv 3 = Some v /\ v == (1 # 100) * 3 * NA sample_system) /\
    nth_error qv 1 = Some 0.
Proof.
  assert (Hrange : forall i, In i [0; 3]%nat ->
                     (i < List.length (q_val (state sample_system)))%nat).
  { intros i [<- | [<- | []]]; simpl; lia. }
  destruct (set_q_spec sample_store sample_system [0; 3]%nat Hrange) as [Hconc _].
  destruct (Hconc (mkPint (1 # 100) mol_per_L) eq_refl) as [qv [Hrun Hget]].
  { intros i [<- | [<- | []]]; eexists; reflexivity. }
  exists qv. split; [exact Hrun |]. repeat apply conj.
  - destruct (Hget 0%nat) as [Hin _].
    destruct (Hin (or_introl eq_refl)) as [V [v [HV [Hnth Hv]]]].
    exists v. split; [exact Hnth |]. inversion HV. subst V. exact Hv.
  - destruct (Hget 3%nat) as [Hin _].
    destruct (Hin (or_intror (or_introl eq_refl))) as [V [v [HV [Hnth Hv]]]].
    exists v. split; [exact Hnth |]. inversion HV. subst V. exact Hv.
  - destruct (Hget 1%nat) as [_ Hout]. rewrite Hout; [reflexivity |].
    simpl. intros [H | [H | []]]; discriminate.
Defined.

(** C8, counterexample: a concentration of one millimole per liter, and
    one of one molar, are not converted to counts: their units are not the
    units [mol/L], so [set_q] raises [ValueError] and the state vector is
    the one before the call. *)
Lemma set_q_rejects_other_concentrations :
  set_q sample_store sample_system [0%nat]
        (WithUnits (mkPint 1 [("millimole", 1%Z); ("liter", (-1)%Z)]))
    = (q_val (state sample_system), Raise bad_quantity) /\
  set_q sample_store sample_system [0%nat]
        (WithUnits (mkPint 1 [("molar", 1%Z)]))
    = (q_val (state sample_system), Raise bad_quantity).
Proof. split; reflexivity. Qed.

(** ** The derivative builder: connections *)

Section ConnectionTerms.
Variable st : Store.
Variable idx : dict (dict nat).
Variable c : Compartment.
Variable s : string.
Variable i : nat.

Lemma connection_step_spec (acc acc' : list Term * list Term)
    (entry : string * (ref * Connection)) :
  connection_step st idx c s i acc entry = Ok acc' ->
  (involves s entry = false /\ acc' = acc) \/
  (involves s entry = true /\
   exists tin tout,
     acc' = ((fst acc ++ [tin])%list, (snd acc ++ [tout])%list) /\
     is_out_term c s i entry tout /\ is_in_term st idx s entry tin).
Proof.
  unfold connection_step, involves.
  destruct (get_species_rates (snd (snd entry))) as [rates | e] eqn:Hr;
    simpl; [| discriminate].
  unfold dict_mem, dict_item.
  destruct (dict_get s rates) as [pair |] eqn:Hs; simpl.
  2: { intros H. inversion H. now left. }
  destruct pair as [k | k_out k_in]; simpl; [discriminate |].
  destruct (qdiv k_out (volume c)) as [out |] eqn:Hout; simpl; [| discriminate].
  unfold deref_comp.
  destruct (nth_error (comps st) (fst (snd entry))) as [other |] eqn:Ho;
    simpl; [| discriminate].
  destruct (qdiv k_in (volume other)) as [inc |] eqn:Hin; simpl; [| discriminate].
  destruct (dict_get (fst entry) idx) as [row |] eqn:Hrow; simpl; [| discriminate].
  destruct (dict_get s row) as [j |] eqn:Hj; simpl; [| discriminate].
  intros H. inversion H. right. split; [reflexivity |].
  exists (inc, [j]), (out, [i]). split; [reflexivity |]. split.
  - exists rates, k_out, k_in. auto.
  - exists rates, k_out, k_in, other, row, j. repeat split; auto.
Qed.

Lemma connection_loop_spec (conns : dict (ref * Connection)) :
  forall acc acc' : list Term * list Term,
  for_each (connection_step st idx c s i) conns acc = Ok acc' ->
  exists ins outs,
    fst acc' = (fst acc ++ ins)%list /\ snd acc' = (snd acc ++ outs)%list /\
    Forall2 (is_out_term c s i) (filter (involves s) conns) outs /\
    Forall2 (is_in_term st idx s) (filter (involves s) conns) ins.
Proof.
  induction conns as [| entry conns IH]; intros acc acc' Hrun; simpl in Hrun.
  - inversion Hrun. exists [], []. simpl. rewrite !app_nil_r. auto.
  - destruct (connection_step st idx c s i acc entry) as [acc1 |] eqn:Hstep;
      simpl in Hrun; [| discriminate].
    destruct (IH _ _ Hrun) as [ins [outs [Hsrc [Hsnk [Hout Hin]]]]].
    destruct (connection_step_spec _ _ _ Hstep)
      as [[Hno ->] | [Hyes [tin [tout [-> [Ho Hi]]]]]]; simpl; rewrite ?Hno, ?Hyes.
    + exists ins, outs. auto.
    + exists (tin :: ins), (tout :: outs). simpl in Hsrc, Hsnk.
      rewrite Hsrc, Hsnk, <- !app_assoc. simpl. auto.
Qed.
End ConnectionTerms.

(** ** The derivative builder: one builder per state position *)

Lemma build_loop_spec (st : Store) (self : ODESystem) (n : nat) :
  forall a acc out,
  for_each (fun dqdt i => b <- builder_at st self i ;; Ok (dqdt ++ [b])%list)
           (seq a n) acc = Ok out ->
  exists bs, out = (acc ++ bs)%list /\ List.length bs = n /\
    forall k b, nth_error bs k = Some b -> builder_at st self (a + k) = Ok b.
Proof.
  induction n as [| n IH]; intros a acc out Hrun; simpl in Hrun.
  - inversion Hrun. exists []. rewrite app_nil_r. repeat split; auto.
    intros [| k] b H; discriminate.
  - destruct (builder_at st self a) as [b0 |] eqn:Hb; simpl in Hrun; [| discriminate].
    destruct (IH _ _ _ Hrun) as [bs [-> [Hlen Hnth]]].
    exists (b0 :: bs). rewrite <- app_assoc. simpl. repeat split; auto.
    intros [| k] b H; simpl in H.
    + inversion H. subst. now rewrite Nat.add_0_r.
    + rewrite <- Nat.add_succ_comm. now apply Hnth.
Qed.

Lemma build_dqdt_nth (st : Store) (self : ODESystem) (dqdt : list DerivFuncBuilder) :
  _build_dqdt st self = Ok dqdt ->
  List.length dqdt = size (state self) /\
  forall i b, nth_error dqdt i = Some b -> builder_at st self i = Ok b.
Proof.
  unfold _build_dqdt. intros Hrun.
  destruct (build_loop_spec st self _ _ _ _ Hrun) as [bs [-> [Hlen Hnth]]].
  simpl. split; [exact Hlen |]. intros i b H. exact (Hnth i b H).
Qed.

(** The parts of a builder: its compartment and species, the terms of the
    reactions, then the terms of the connections. *)
Lemma builder_at_parts (st : Store) (self : ODESystem) (i : nat) (b : DerivFuncBuilder) :
  builder_at st self i = Ok b ->
  exists lab cref c s racc,
    nth_error (st_compartment (state self)) i = Some lab /\
    dict_get lab (flat_compartments (model self)) = Some cref /\
    nth_error (comps st) cref = Some c /\
    nth_error (st_species (state self)) i = Some s /\
    for_each (reaction_step (index (state self)) c s) (reactions c) ([], []) = Ok racc /\
    for_each (connection_step st (index (state self)) c s i) (connections c) racc
      = Ok (sources b, sinks b).
Proof.
  unfold builder_at, list_at, dict_item, deref_comp.
  destruct (nth_error (st_compartment (state self)) i) as [lab |] eqn:E1;
    simpl; [| discriminate].
  destruct (dict_get lab (flat_compartments (model self))) as [cref |] eqn:E2;
    simpl; [| discriminate].
  destruct (nth_error (comps st) cref) as [c |] eqn:E3; simpl; [| discriminate].
  destruct (nth_error (st_species (state self)) i) as [s |] eqn:E4;
    simpl; [| discriminate].
  destruct (for_each (reaction_step _ c s) (reactions c) ([], [])) as [racc |] eqn:E5;
    simpl; [| discriminate].
  destruct (for_each (connection_step st _ c s i) (connections c) racc)
    as [[src snk] |] eqn:E6; simpl; [| discriminate].
  intros H. inversion H. simpl.
  exists lab, cref, c, s, racc. auto 10.
Qed.

(** C2: in a built list of derivative builders, the builder of state
    position [i] (compartment [c], species [s]) holds, after the terms of
    the reactions and in the order of [c]'s connections, exactly one sink
    term [(k_out / V_c, [i])] and one source term
    [(k_in / V_neighbor, [index[neighbor][s]])] for every connection of [c]
    whose [species_rates] contain [s], and none for the others. *)
Theorem connection_terms_spec (st : Store) (self : ODESystem)
    (dqdt : list DerivFuncBuilder) (i : nat) (b : DerivFuncBuilder) :
  _build_dqdt st self = Ok dqdt ->
  nth_error dqdt i = Some b ->
  exists lab cref c s rsrc rsnk ins outs,
    nth_error (st_compartment (state self)) i = Some lab /\
    dict_get lab (flat_compartments (model self)) = Some cref /\
    nth_error (comps st) cref = Some c /\
    nth_error (st_species (state self)) i = Some s /\
    for_each (reaction_step (index (state self)) c s) (reactions c) ([], [])
      = Ok (rsrc, rsnk) /\
    sources b = (rsrc ++ ins)%list /\ sinks b = (rsnk ++ outs)%list /\
    Forall2 (is_out_term c s i) (filter (involves s) (connections c)) outs /\
    Forall2 (is_in_term st (index (state self)) s)
            (filter (involves s) (connections c)) ins.
Proof.
  intros Hbuild Hnth.
  destruct (build_dqdt_nth st self dqdt Hbuild) as [_ Hat].
  destruct (builder_at_parts st self i b (Hat i b Hnth))
    as [lab [cref [c [s [[rsrc rsnk] [E1 [E2 [E3 [E4 [E5 E6]]]]]]]]]].
  destruct (connection_loop_spec st _ c s i _ _ _ E6)
    as [ins [outs [Hsrc [Hsnk [Hout Hin]]]]].
  exists lab, cref, c, s, rsrc, rsnk, ins, outs. simpl in Hsrc, Hsnk. auto 12.
Qed.

Lemma connection_terms_spec_witness :
  exists dqdt b tout tin,
    _build_dqdt sample_store sample_system = Ok dqdt /\
    nth_error dqdt 3 = Some b /\
    sinks b = [tout] /\ sources b = [tin] /\
    snd tout = [3%nat] /\ snd tin = [0%nat].
Proof.
  assert (Hb : exists dqdt, _build_dqdt sample_store sample_system = Ok dqdt).
  { vm_compute. eexists. reflexivity. }
  destruct Hb as [dqdt Hb].
  destruct (build_dqdt_nth _ _ _ Hb) as [Hlen _].
  destruct (nth_error dqdt 3) as [b |] eqn:Hn.
  2: { apply nth_error_None in Hn. rewrite Hlen in Hn. simpl in Hn. lia. }
  destruct (connection_terms_spec sample_store sample_system dqdt 3 b Hb Hn)
    as [lab [cref [c [s [rsrc [rsnk [ins [outs
         [E1 [E2 [E3 [E4 [E5 [Hsrc [Hsnk [Hout Hin]]]]]]]]]]]]]]]].
  simpl in E1. inversion E1. subst lab.
  simpl in E2. inversion E2. subst cref.
  simpl in E3. inversion E3. subst c.
  simpl in E4. inversion E4. subst s.
  simpl in E5. inversion E5. subst rsrc rsnk.
  simpl in Hout, Hin.
  inversion Hout as [| e tout l outs' Ho Ho' ]. subst. inversion Ho'. subst.
  inversion Hin as [| e tin l ins' Hi Hi' ]. subst. inversion Hi'. subst.
  exists dqdt, b, tout, tin. repeat split; auto.
  - destruct Ho as [rates [k_out [k_in [_ [_ [_ Hq]]]]]]. exact Hq.
  - destruct Hi as [rates [k_out [k_in [other [row [j [_ [_ [_ [_ [Hrow [Hj Hq]]]]]]]]]]]].
    simpl in Hrow. inversion Hrow. subst row. simpl in Hj. inversion Hj. subst j.
    exact Hq.
Defined.

(** ** The derivative builder: reactions *)

Lemma skipn_nth_error_cons {A : Type} (l : list A) : forall a x,
  nth_error l a = Some x -> skipn a l = x :: skipn (S a) l.
Proof.
  induction l as [| y l IH]; intros [| a] x H; simpl in *; try discriminate.
  - now inversion H.
  - now apply IH.
Qed.

Section OrderLoop.
Variable idx : dict (dict nat).
Variable cID : string.
Variable stoich : list Z.

Let body := fun (acc : list nat * Z) (jx : nat * Species) =>
              row <- dict_item cID idx ;;
              q <- dict_item (species_ID (snd jx)) row ;;
              m <- list_at stoich (fst jx) ;;
              Ok ((fst acc ++ repeat q (Z.to_nat m))%list, (snd acc + m)%Z).

Lemma order_loop_from (xs : list Species) : forall a acc out,
  for_each body (combine (seq a (List.length xs)) xs) acc = Ok out ->
  exists idxs,
    Forall2 (fun x q => exists row, dict_get cID idx = Some row /\
                                    dict_get (species_ID x) row = Some q) xs idxs /\
    (List.length xs <= List.length (skipn a stoich))%nat /\
    snd out = (snd acc + total_order (List.length xs) (skipn a stoich))%Z /\
    fst out = (fst acc ++ repeated_indices idxs (skipn a stoich))%list.
Proof.
  induction xs as [| x xs IH]; intros a acc out Hrun; simpl in Hrun.
  - inversion Hrun. exists []. unfold total_order, repeated_indices. simpl.
    rewrite app_nil_r, Z.add_0_r. repeat split; auto. lia.
  - unfold body at 1 in Hrun. unfold dict_item, list_at in Hrun. simpl in Hrun.
    destruct (dict_get cID idx) as [row |] eqn:Hrow; simpl in Hrun; [| discriminate].
    destruct (dict_get (species_ID x) row) as [q |] eqn:Hq; simpl in Hrun;
      [| discriminate].
    destruct (nth_error stoich a) as [m |] eqn:Hm; simpl in Hrun; [| discriminate].
    destruct (IH _ _ _ Hrun) as [idxs [Hall [Hlen [Hn Hql]]]].
    exists (q :: idxs). rewrite (skipn_nth_error_cons _ _ _ Hm).
    simpl in Hn, Hql. unfold total_order, repeated_indices in *. simpl.
    split; [constructor; [exists row; auto | exact Hall] |].
    split; [apply le_n_S; exact Hlen |].
    split; [rewrite Hn; lia |].
    rewrite Hql, <- app_assoc. reflexivity.
Qed.
End OrderLoop.

Lemma order_loop_spec (idx : dict (dict nat)) (cID : string) (xs : list Species)
    (stoich : list Z) (q_list : list nat) (n : Z) :
  order_loop idx cID xs stoich = Ok (q_list, n) ->
  exists idxs,
    Forall2 (fun x q => exists row, dict_get cID idx = Some row /\
                                    dict_get (species_ID x) row = Some q) xs idxs /\
    (List.length xs <= List.length stoich)%nat /\
    n = total_order (List.length xs) stoich /\
    q_list = repeated_indices idxs stoich.
Proof.
  unfold order_loop, enumerate. intros Hrun.
  destruct (order_loop_from idx cID stoich xs 0 _ _ Hrun) as [idxs H].
  simpl in H. exists idxs. exact H.
Qed.

Lemma rate_term_spec (k vol : Quantity) (n : Z) (q_list : list nat) (t : Term) :
  rate_term k vol n q_list = Ok t ->
  ((1 < n)%Z -> qdiv k (qpow vol (n - 1)) = Ok (fst t)) /\
  ((n <= 1)%Z -> fst t = k) /\
  snd t = q_list.
Proof.
  unfold rate_term. destruct (n - 1 >? 0)%Z eqn:E.
  - apply Z.gtb_lt in E.
    destruct (qdiv k (qpow vol (n - 1))) as [k' |]; simpl; [| discriminate].
    intros H. inversion H. simpl. repeat split; auto. lia.
  - rewrite Z.gtb_ltb in E. apply Z.ltb_ge in E.
    intros H. inversion H. simpl. repeat split; auto. lia.
Qed.

Lemma direction_term_spec (idx : dict (dict nat)) (c : Compartment) (k : Quantity)
    (xs : list Species) (stoich : list Z) (terms terms' : list Term) :
  direction_term idx c k xs stoich terms = Ok terms' ->
  (qpos k = false /\ terms' = terms) \/
  (qpos k = true /\
   exists t, terms' = (terms ++ [t])%list /\ is_reaction_term idx c k xs stoich t).
Proof.
  unfold direction_term. destruct (qpos k); [| intros H; inversion H; now left].
  destruct (order_loop idx (ID c) xs stoich) as [[q_list n] |] eqn:Hloop;
    simpl; [| discriminate].
  destruct (rate_term k (volume c) n q_list) as [t |] eqn:Hrate; simpl; [| discriminate].
  intros H. inversion H. right. split; [reflexivity |].
  exists t. split; [reflexivity |].
  destruct (order_loop_spec _ _ _ _ _ _ Hloop) as [idxs [Hall [Hlen [Hn Hql]]]].
  destruct (rate_term_spec _ _ _ _ _ Hrate) as [Hhigh [Hlow Hsnd]].
  exists idxs. subst n q_list. repeat split; auto.
Qed.

Lemma direction_term_adds (idx : dict (dict nat)) (c : Compartment) (k : Quantity)
    (xs : list Species) (stoich : list Z) (terms terms' : list Term) :
  direction_term idx c k xs stoich terms = Ok terms' ->
  exists ts, terms' = (terms ++ ts)%list /\ direction_adds idx c k xs stoich ts.
Proof.
  intros H. unfold direction_adds.
  destruct (direction_term_spec _ _ _ _ _ _ _ H) as [[Hk ->] | [Hk [t [-> Ht]]]];
    rewrite Hk.
  - exists []. now rewrite app_nil_r.
  - exists [t]. split; [reflexivity |]. exists t. auto.
Qed.

Section ReactionTerms.
Variable idx : dict (dict nat).
Variable c : Compartment.
Variable s : string.

Lemma reaction_step_spec (acc acc' : list Term * list Term) (r : Reaction) :
  reaction_step idx c s acc r = Ok acc' ->
  exists added,
    reaction_adds idx c s r added /\
    fst acc' = (fst acc ++ fst added)%list /\
    snd acc' = (snd acc ++ snd added)%list.
Proof.
  unfold reaction_step, reaction_adds.
  destruct (str_in s (reactant_IDs r)).
  - destruct (direction_term idx c (kf r) _ _ (snd acc)) as [snk |] eqn:Hf;
      simpl; [| discriminate].
    destruct (direction_term idx c (kr r) _ _ (fst acc)) as [src |] eqn:Hr;
      simpl; [| discriminate].
    intros H. inversion H.
    destruct (direction_term_adds _ _ _ _ _ _ _ Hf) as [tf [-> Hfa]].
    destruct (direction_term_adds _ _ _ _ _ _ _ Hr) as [tr [-> Hra]].
    exists (tr, tf). simpl. auto.
  - destruct (str_in s (product_IDs r)).
    + destruct (direction_term idx c (kf r) _ _ (fst acc)) as [src |] eqn:Hf;
        simpl; [| discriminate].
      destruct (direction_term idx c (kr r) _ _ (snd acc)) as [snk |] eqn:Hr;
        simpl; [| discriminate].
      intros H. inversion H.
      destruct (direction_term_adds _ _ _ _ _ _ _ Hf) as [tf [-> Hfa]].
      destruct (direction_term_adds _ _ _ _ _ _ _ Hr) as [tr [-> Hra]].
      exists (tf, tr). simpl. auto.
    + intros H. inversion H. exists ([], []). simpl. now rewrite !app_nil_r.
Qed.

Lemma reaction_loop_spec (rs : list Reaction) :
  forall acc acc' : list Term * list Term,
  for_each (reaction_step idx c s) rs acc = Ok acc' ->
  exists added,
    Forall2 (reaction_adds idx c s) rs added /\
    fst acc' = (fst acc ++ List.concat (map fst added))%list /\
    snd acc' = (snd acc ++ List.concat (map snd added))%list.
Proof.
  induction rs as [| r rs IH]; intros acc acc' Hrun; simpl in Hrun.
  - inversion Hrun. exists []. simpl. rewrite !app_nil_r. auto.
  - destruct (reaction_step idx c s acc r) as [acc1 |] eqn:Hstep;
      simpl in Hrun; [| discriminate].
    destruct (reaction_step_spec _ _ _ Hstep) as [a [Ha [Hsrc Hsnk]]].
    destruct (IH _ _ Hrun) as [added [Hall [Hsrc' Hsnk']]].
    exists (a :: added). simpl.
    rewrite Hsrc', Hsnk', Hsrc, Hsnk, <- !app_assoc. auto.
Qed.
End ReactionTerms.

Lemma repeated_indices_cons (q : nat) (m : Z) (idxs : list nat) (stoich : list Z) :
  repeated_indices (q :: idxs) (m :: stoich) =
    (repeat q (Z.to_nat m) ++ repeated_indices idxs stoich)%list.
Proof. reflexivity. Qed.

Lemma repeated_indices_absent (idxs : list nat) : forall (stoich : list Z) (q : nat),
  ~ In q idxs -> count_occ Nat.eq_dec (repeated_indices idxs stoich) q = 0%nat.
Proof.
  induction idxs as [| q0 idxs IH]; intros [| m stoich] q Hnot; try reflexivity.
  rewrite repeated_indices_cons, count_occ_app.
  rewrite count_occ_repeat_neq by (intros ->; apply Hnot; now left).
  apply IH. intros H. apply Hnot. now right.
Qed.

(** In a term, the state index of each species occurs as many times as its
    stoichiometric coefficient says. *)
Lemma repeated_indices_count (idxs : list nat) :
  forall (stoich : list Z) (j q : nat) (m : Z),
  NoDup idxs -> nth_error idxs j = Some q -> nth_error stoich j = Some m ->
  count_occ Nat.eq_dec (repeated_indices idxs stoich) q = Z.to_nat m.
Proof.
  induction idxs as [| q0 idxs IH]; intros [| m0 stoich] [| j] q m Hnd Hq Hm;
    simpl in Hq, Hm; try discriminate.
  - inversion Hq; inversion Hm; subst. inversion Hnd; subst.
    rewrite repeated_indices_cons, count_occ_app, count_occ_repeat_eq by reflexivity.
    rewrite repeated_indices_absent by assumption. lia.
  - inversion Hnd; subst.
    rewrite repeated_indices_cons, count_occ_app.
    rewrite count_occ_repeat_neq.
    + simpl. now apply (IH stoich j).
    + intros ->. apply nth_error_In in Hq. contradiction.
Qed.

(** C1: in a built list of derivative builders, the builder of state
    position [i] (compartment [c], species [s]) starts with the terms of
    [c]'s reactions, reaction by reaction.  A reaction in which [s] does not
    participate adds nothing; one in which it does adds, for each direction
    with a positive rate constant [k] and total order [n], one term whose
    rate constant is [k / V^(n-1)] when [n > 1] and [k] itself when
    [n <= 1], and whose index list repeats the state index of each species
    of that direction as many times as its coefficient. *)
Theorem reaction_terms_spec (st : Store) (self : ODESystem)
    (dqdt : list DerivFuncBuilder) (i : nat) (b : DerivFuncBuilder) :
  _build_dqdt st self = Ok dqdt ->
  nth_error dqdt i = Some b ->
  exists lab cref c s added ins outs,
    nth_error (st_compartment (state self)) i = Some lab /\
    dict_get lab (flat_compartments (model self)) = Some cref /\
    nth_error (comps st) cref = Some c /\
    nth_error (st_species (state self)) i = Some s /\
    Forall2 (reaction_adds (index (state self)) c s) (reactions c) added /\
    sources b = (List.concat (map fst added) ++ ins)%list /\
    sinks b = (List.concat (map snd added) ++ outs)%list /\
    (forall idxs stoich j q m,
       NoDup idxs -> nth_error idxs j = Some q -> nth_error stoich j = Some m ->
       count_occ Nat.eq_dec (repeated_indices idxs stoich) q = Z.to_nat m).
Proof.
  intros Hbuild Hnth.
  destruct (build_dqdt_nth st self dqdt Hbuild) as [_ Hat].
  destruct (builder_at_parts st self i b (Hat i b Hnth))
    as [lab [cref [c [s [racc [E1 [E2 [E3 [E4 [E5 E6]]]]]]]]]].
  destruct (reaction_loop_spec _ c s _ _ _ E5) as [added [Hall [Hsrc Hsnk]]].
  destruct (connection_loop_spec st _ c s i _ _ _ E6)
    as [ins [outs [Hsrc' [Hsnk' _]]]].
  simpl in Hsrc, Hsnk, Hsrc', Hsnk'.
  exists lab, cref, c, s, added, ins, outs.
  rewrite Hsrc', Hsnk', Hsrc, Hsnk.
  repeat (split; [assumption || reflexivity |]).
  intros idxs stoich j q m. apply repeated_indices_count.
Qed.

Lemma reaction_terms_spec_witness :
  exists dqdt b t,
    _build_dqdt sample_store sample_system = Ok dqdt /\
    nth_error dqdt 0 = Some b /\
    nth_error (sinks b) 0 = Some t /\
    qdiv kon (qpow (mkQuantity 2 liter) 1) = Ok (fst t) /\
    snd t = [0; 1]%nat.
Proof.
  assert (Hb : exists dqdt, _build_dqdt sample_store sample_system = Ok dqdt).
  { vm_compute. eexists. reflexivity. }
  destruct Hb as [dqdt Hb].
  destruct (build_dqdt_nth _ _ _ Hb) as [Hlen _].
  destruct (nth_error dqdt 0) as [b |] eqn:Hn.
  2: { apply nth_error_None in Hn. rewrite Hlen in Hn. simpl in Hn. lia. }
  destruct (reaction_terms_spec sample_store sample_system dqdt 0 b Hb Hn)
    as [lab [cref [c [s [added [ins [outs
         [E1 [E2 [E3 [E4 [Hall [Hsrc [Hsnk _]]]]]]]]]]]]]].
  simpl in E1. inversion E1. subst lab.
  simpl in E2. inversion E2. subst cref.
  simpl in E3. inversion E3. subst c.
  simpl in E4. inversion E4. subst s.
  simpl in Hall.
  inversion Hall as [| r a rs added' Ha Hrest]. subst. inversion Hrest. subst.
  unfold reaction_adds in Ha.
  assert (Hs : str_in "drug" (reactant_IDs binding) = true) by reflexivity.
  rewrite Hs in Ha. destruct Ha as [Hfwd _].
  unfold direction_adds in Hfwd.
  assert (Hk : qpos (kf binding) = true) by reflexivity.
  rewrite Hk in Hfwd. destruct Hfwd as [t [Ht Hterm]].
  exists dqdt, b, t. split; [exact Hb |]. split; [exact Hn |].
  split; [rewrite Hsnk; simpl; rewrite Ht; reflexivity |].
  destruct Hterm as [idxs [Hidx [_ [Hhigh [_ Hq]]]]].
  split; [apply Hhigh; reflexivity |].
  rewrite Hq.
  inversion Hidx as [| x q xs qs [row [Hrow Hx]] Hidx']. subst.
  inversion Hidx' as [| x' q' xs' qs' [row' [Hrow' Hx']] Hidx'']. subst.
  inversion Hidx''. subst.
  simpl in Hrow, Hrow'. inversion Hrow. inversion Hrow'. subst row row'.
  simpl in Hx, Hx'. inversion Hx. inversion Hx'. reflexivity.
Defined.

(** ** Flattening: the namespace *)

Lemma dict_get_In {V : Type} (k : string) (v : V) (d : dict V) :
  dict_get k d = Some v -> In (k, v) d.
Proof.
  induction d as [| [k' v'] d IH]; simpl; [discriminate |].
  destruct (String.eqb k k') eqn:E.
  - apply String.eqb_eq in E. subst. intros H. inversion H. now left.
  - intros H. right. now apply IH.
Qed.

Lemma dict_set_In {V : Type} (k k' : string) (v v' : V) (d : dict V) :
  In (k', v') (dict_set k v d) -> (k' = k /\ v' = v) \/ In (k', v') d.
Proof.
  induction d as [| [k0 v0] d IH]; simpl.
  - intros [H | []]. inversion H. now left.
  - destruct (String.eqb k k0) eqn:E; simpl.
    + apply String.eqb_eq in E. subst k0.
      intros [H | H]; [inversion H; now left | right; now right].
    + intros [H | H]; [right; now left |].
      destruct (IH H) as [Hnew | Hold]; [now left | right; now right].
Qed.

Section Namespace.
Variable makeID : option string -> string -> string.
Variable st0 : Store.

Lemma add_compartment_inv (acc acc' : Store * FlatModel) (c : ref) :
  namespace_ok st0 acc ->
  FlatModel_add_compartment makeID acc c = Ok acc' ->
  namespace_ok st0 acc' /\
  (forall C, holds_copy_of makeID acc C -> holds_copy_of makeID acc' C) /\
  (forall C, nth_error (comps (fst acc)) c = Some C -> holds_copy_of makeID acc' C).
Proof.
  intros [[copies Hpre] Hval]. unfold FlatModel_add_compartment, deref_comp.
  destruct (nth_error (comps (fst acc)) c) as [C0 |] eqn:Hc; simpl; [| discriminate].
  set (newID := makeID (array_ID C0) (ID C0)).
  unfold dict_mem.
  destruct (dict_get newID (flat_compartments (snd acc))) eqn:Hmem; [discriminate |].
  intros H. inversion H. subst acc'. clear H. simpl.
  split; [split |]; [| | split].
  - exists (copies ++ [Compartment_copy C0 newID])%list. simpl.
    now rewrite Hpre, app_assoc.
  - simpl. intros key r Hk. rewrite length_app. simpl.
    destruct (dict_set_In _ _ _ _ _ Hk) as [[_ ->] | Hold]; [lia |].
    specialize (Hval key r Hold). lia.
  - intros C [r [Hr Hnth]]. exists r. simpl. split.
    + rewrite dict_get_set_other; [exact Hr |].
      intros Heq. fold newID in Hmem. rewrite Heq in Hr. congruence.
    + rewrite nth_error_app1; [exact Hnth |].
      apply (Hval (makeID (array_ID C) (ID C)) r). now apply dict_get_In.
  - intros C HC. inversion HC. subst C0.
    exists (List.length (comps (fst acc))). simpl. split.
    + apply dict_get_set_same.
    + rewrite nth_error_app2 by lia. now rewrite Nat.sub_diag.
Qed.

Lemma namespace_ok_keeps (acc : Store * FlatModel) (c : ref) (C : Compartment) :
  namespace_ok st0 acc -> nth_error (comps st0) c = Some C ->
  nth_error (comps (fst acc)) c = Some C.
Proof.
  intros [[copies Hpre] _] Hc. rewrite Hpre.
  rewrite nth_error_app1; [exact Hc |].
  apply nth_error_Some. congruence.
Qed.

Lemma add_compartments_inv (refs : list ref) : forall acc acc',
  namespace_ok st0 acc ->
  FlatModel_add_compartments makeID acc refs = Ok acc' ->
  namespace_ok st0 acc' /\
  (forall C, holds_copy_of makeID acc C -> holds_copy_of makeID acc' C) /\
  (forall c C, In c refs -> nth_error (comps st0) c = Some C ->
               holds_copy_of makeID acc' C).
Proof.
  unfold FlatModel_add_compartments.
  induction refs as [| c refs IH]; intros acc acc' Hok Hrun; simpl in Hrun.
  - inversion Hrun. subst. repeat split; auto; try apply Hok. intros c C [].
  - destruct (FlatModel_add_compartment makeID acc c) as [acc1 |] eqn:Hadd;
      simpl in Hrun; [| discriminate].
    destruct (add_compartment_inv _ _ _ Hok Hadd) as [Hok1 [Hkeep1 Hnew1]].
    destruct (IH _ _ Hok1 Hrun) as [Hok' [Hkeep' Hnew']].
    split; [exact Hok' |]. split.
    + intros C HC. apply Hkeep', Hkeep1, HC.
    + intros c0 C [<- | Hin] HC.
      * apply Hkeep', Hnew1. now apply namespace_ok_keeps.
      * now apply (Hnew' c0).
Qed.
End Namespace.

Section NamespaceOfModel.
Variable makeID : option string -> string -> string.
Variable st0 : Store.

Lemma add_arrays_inv (arrs : list CompartmentArray) : forall acc acc',
  namespace_ok st0 acc ->
  for_each (fun acc a =>
              FlatModel_add_compartments makeID acc (dict_values (arr_compartments a)))
           arrs acc = Ok acc' ->
  namespace_ok st0 acc' /\
  (forall C, holds_copy_of makeID acc C -> holds_copy_of makeID acc' C) /\
  (forall c C,
     In c (flat_map (fun a => dict_values (arr_compartments a)) arrs) ->
     nth_error (comps st0) c = Some C -> holds_copy_of makeID acc' C).
Proof.
  induction arrs as [| a arrs IH]; intros acc acc' Hok Hrun; simpl in Hrun.
  - inversion Hrun. subst. repeat split; auto; try apply Hok. intros c C [].
  - destruct (FlatModel_add_compartments makeID acc _) as [acc1 |] eqn:Hadd;
      simpl in Hrun; [| discriminate].
    destruct (add_compartments_inv makeID st0 _ _ _ Hok Hadd) as [Hok1 [Hkeep1 Hnew1]].
    destruct (IH _ _ Hok1 Hrun) as [Hok' [Hkeep' Hnew']].
    split; [exact Hok' |]. split.
    + intros C HC. apply Hkeep', Hkeep1, HC.
    + intros c C Hin HC. simpl in Hin. apply in_app_or in Hin.
      destruct Hin as [Hin | Hin].
      * apply Hkeep'. now apply (Hnew1 c).
      * now apply (Hnew' c).
Qed.

(** When the namespace is built, it holds, under its flattened ID, a copy
    of every compartment of the model. *)
Lemma flatten_namespace_spec (self : Model) (acc : Store * FlatModel) :
  flatten_namespace makeID self st0 = Ok acc ->
  namespace_ok st0 acc /\
  forall c C, In c (source_compartments self) ->
              nth_error (comps st0) c = Some C -> holds_copy_of makeID acc C.
Proof.
  unfold flatten_namespace, source_compartments. intros Hrun.
  destruct (FlatModel_add_compartments makeID (st0, mkFlatModel []) _)
    as [acc1 |] eqn:Hadd; simpl in Hrun; [| discriminate].
  assert (Hok0 : namespace_ok st0 (st0, mkFlatModel [])).
  { split; simpl; [exists []; now rewrite app_nil_r | intros key r []]. }
  destruct (add_compartments_inv makeID st0 _ _ _ Hok0 Hadd) as [Hok1 [_ Hnew1]].
  destruct (add_arrays_inv _ _ _ Hok1 Hrun) as [Hok' [Hkeep' Hnew']].
  split; [exact Hok' |].
  intros c C Hin HC. apply in_app_or in Hin. destruct Hin as [Hin | Hin].
  - apply Hkeep'. now apply (Hnew1 c).
  - now apply (Hnew' c).
Qed.
End NamespaceOfModel.

(** ** Flattening: missing compartments *)

Section FindMissing.
Variable st : Store.
Variable self : FlatModel.

Let inner := fun (missing : list string) (nbor : string) =>
               if dict_mem nbor (flat_compartments self)
               then Ok missing
               else Ok (missing ++ [nbor])%list.

Lemma find_missing_inner (keys : list string) : forall missing,
  for_each inner keys missing =
    Ok (missing ++ filter (fun n => negb (dict_mem n (flat_compartments self))) keys)%list.
Proof.
  induction keys as [| k keys IH]; intros missing; simpl.
  - now rewrite app_nil_r.
  - unfold inner at 1. destruct (dict_mem k (flat_compartments self)); simpl.
    + apply IH.
    + rewrite IH, <- app_assoc. reflexivity.
Qed.

Lemma find_missing_outer (refs : list ref) : forall missing,
  (forall r, In r refs -> (r < List.length (comps st))%nat) ->
  exists missing',
    for_each (fun missing cref =>
                c <- deref_comp st cref ;;
                for_each inner (dict_keys (connections c)) missing)
             refs missing = Ok missing' /\
    forall nbor,
      In nbor missing' <->
      In nbor missing \/
      exists r c, In r refs /\ nth_error (comps st) r = Some c /\
                  In nbor (dict_keys (connections c)) /\
                  dict_mem nbor (flat_compartments self) = false.
Proof.
  induction refs as [| r refs IH]; intros missing Hval; simpl.
  - exists missing. split; [reflexivity |]. intros nbor. split; [tauto |].
    intros [H | [r [c [[] _]]]]. exact H.
  - assert (Hr : (r < List.length (comps st))%nat) by (apply Hval; now left).
    apply nth_error_Some in Hr. unfold deref_comp at 1.
    destruct (nth_error (comps st) r) as [c |] eqn:Hc; [| congruence]. simpl.
    rewrite find_missing_inner. simpl.
    destruct (IH (missing ++ filter (fun n => negb (dict_mem n (flat_compartments self)))
                                    (dict_keys (connections c)))%list)
      as [missing' [Hrun Hiff]].
    { intros r' Hin. apply Hval. now right. }
    exists missing'. split; [exact Hrun |].
    intros nbor. rewrite Hiff, in_app_iff, filter_In, negb_true_iff. split.
    + intros [[H | [Hin Hno]] | [r' [c' [Hin H]]]].
      * now left.
      * right. exists r, c. repeat split; auto.
      * right. exists r', c'. split; [now right | exact H].
    + intros [H | [r' [c' [[<- | Hin] [Hc' [Hk Hno]]]]]].
      * left. now left.
      * rewrite Hc in Hc'. inversion Hc'. subst c'. left. right. auto.
      * right. exists r', c'. auto.
Qed.
End FindMissing.

Lemma dict_get_in_values {V : Type} (k : string) (v : V) (d : dict V) :
  dict_get k d = Some v -> In v (dict_values d).
Proof.
  induction d as [| [k' v'] d IH]; simpl; [discriminate |].
  destruct (String.eqb k k').
  - intros H. inversion H. now left.
  - intros H. right. now apply IH.
Qed.

Lemma dict_values_in_get {V : Type} (v : V) (d : dict V) :
  In v (dict_values d) -> exists k, In (k, v) d.
Proof.
  unfold dict_values. intros H. apply in_map_iff in H.
  destruct H as [[k v'] [Heq Hin]]. simpl in Heq. subst. eauto.
Qed.

Lemma flatten_reports_missing
    (makeID : option string -> string -> string) (length_unit : Unit)
    (np_sqrt : Q -> Q) (self : Model) (st st1 : Store) (fm : FlatModel)
    (c : ref) (C : Compartment) (nbor : string) :
  flatten_namespace makeID self st = Ok (st1, fm) ->
  In c (source_compartments self) ->
  nth_error (comps st) c = Some C ->
  In nbor (dict_keys (connections C)) ->
  dict_mem nbor (flat_compartments fm) = false ->
  exists missing,
    flatten makeID length_unit np_sqrt self st = Raise (missing_compartments missing) /\
    In nbor missing.
Proof.
  intros Hns Hc HC Hnbor Hno.
  destruct (flatten_namespace_spec makeID st self _ Hns) as [[_ Hval] Hcopies].
  simpl in Hval.
  destruct (Hcopies c C Hc HC) as [r [Hr Hcopy]]. simpl in Hr, Hcopy.
  destruct (find_missing_outer st1 fm (dict_values (flat_compartments fm)) [])
    as [missing [Hrun Hiff]].
  { intros r' Hin. destruct (dict_values_in_get _ _ Hin) as [k Hk].
    now apply (Hval k). }
  assert (Hin : In nbor missing).
  { apply Hiff. right. exists r, (Compartment_copy C (makeID (array_ID C) (ID C))).
    split; [now apply (dict_get_in_values _ _ _ Hr) |]. auto. }
  exists missing. split; [| exact Hin].
  unfold flatten. rewrite Hns. simpl.
  unfold find_missing_compartments. rewrite Hrun. simpl.
  destruct missing as [| m missing]; [contradiction | reflexivity].
Qed.

(** C4: for a model one of whose compartments has a connection to an ID
    that is not in the flattened namespace, [flatten] raises and so returns
    no FlatModel; the namespace being built, the error is the one that lists
    the missing IDs, that ID among them, and it is raised before any
    connection is resolved. *)
Theorem flatten_missing_reference
    (makeID : option string -> string -> string) (length_unit : Unit)
    (np_sqrt : Q -> Q) (self : Model) (st : Store)
    (c : ref) (C : Compartment) (nbor : string) :
  In c (source_compartments self) ->
  nth_error (comps st) c = Some C ->
  In nbor (dict_keys (connections C)) ->
  (forall st1 fm, flatten_namespace makeID self st = Ok (st1, fm) ->
                  dict_mem nbor (flat_compartments fm) = false) ->
  exists e,
    flatten makeID length_unit np_sqrt self st = Raise e /\
    forall st1 fm, flatten_namespace makeID self st = Ok (st1, fm) ->
      exists missing, e = missing_compartments missing /\ In nbor missing.
Proof.
  intros Hc HC Hnbor Hno.
  destruct (flatten_namespace makeID self st) as [[st1 fm] | e] eqn:Hns.
  - destruct (flatten_reports_missing makeID length_unit np_sqrt self st st1 fm
                c C nbor Hns Hc HC Hnbor (Hno st1 fm eq_refl))
      as [missing [Hrun Hin]].
    exists (missing_compartments missing). split; [exact Hrun |].
    intros st1' fm' H. inversion H. subst. exists missing. auto.
  - exists e. split; [| discriminate].
    unfold flatten. now rewrite Hns.
Qed.

Lemma flatten_missing_reference_witness :
  exists e,
    flatten sample_makeID meter (fun x => x) lonely_model lonely_store = Raise e /\
    e = missing_compartments ["bulk-0_0_1"].
Proof.
  destruct (flatten_missing_reference sample_makeID meter (fun x => x)
              lonely_model lonely_store 0%nat
              (mkCompartment "0_0_0" (Some "bulk") [(0, 1); (0, 1); (0, 1)]
                 [("yz", 1); ("xz", 1); ("xy", 1)] (mkQuantity 1 liter) []
                 [("bulk-0_0_1", (1%nat, sample_leak))])
              "bulk-0_0_1")
    as [e [Hrun _]].
  - simpl. now left.
  - reflexivity.
  - simpl. now left.
  - intros st1 fm H. vm_compute in H. inversion H. reflexivity.
  - exists e. split; [exact Hrun |].
    assert (Hval : flatten sample_makeID meter (fun x => x) lonely_model lonely_store
                   = Raise (missing_compartments ["bulk-0_0_1"])) by reflexivity.
    rewrite Hval in Hrun. now inversion Hrun.
Defined.

(* ================================================================= *)
(** * Further properties of the code *)

(** ** The connection classes *)

Lemma aniso_check_loop (d : dict RateVal) (l : list (string * RateVal)) :
  (forall k v, In (k, v) l -> dict_get k d = Some v) ->
  for_each (fun (_ : unit) s =>
              v <- dict_item s d ;;
              match v with
              | Tuple2 _ _ => Ok tt
              | Scalar _ => Raise tuple_error
              end) (map fst l) tt
  = if forallb is_tuple (map snd l) then Ok tt else Raise tuple_error.
Proof.
  induction l as [| [k v] l IH]; intros Hget; simpl; [reflexivity |].
  unfold dict_item at 1. rewrite (Hget k v) by now left. simpl.
  destruct v as [q | a b]; simpl; [reflexivity |].
  apply IH. intros k' v' Hin. apply Hget. now right.
Qed.

(** [AnisotropicConnection.__init__] accepts a dictionary exactly when each
    of its values is a pair, and then keeps it as it is; any bare rate makes
    it raise [ValueError]. *)
Theorem AnisotropicConnection_init_checks (d : dict RateVal) :
  NoDup (dict_keys d) ->
  AnisotropicConnection_init d =
    if forallb is_tuple (dict_values d)
    then Ok (mkAnisotropic d) else Raise tuple_error.
Proof.
  intros Hnd. unfold AnisotropicConnection_init, dict_keys, dict_values.
  rewrite (aniso_check_loop d d).
  - now destruct (forallb is_tuple (map snd d)).
  - intros k v Hin. now apply dict_get_in.
Qed.

Lemma AnisotropicConnection_init_checks_witness :
  AnisotropicConnection_init drug_rates = Ok (mkAnisotropic drug_rates) /\
  AnisotropicConnection_init
    [("drug", Scalar (mkQuantity 1 liter_per_sec))] = Raise tuple_error.
Proof.
  split.
  - rewrite (AnisotropicConnection_init_checks drug_rates); [reflexivity |].
    simpl. constructor; [simpl; tauto | constructor].
  - rewrite AnisotropicConnection_init_checks; [reflexivity |].
    simpl. constructor; [simpl; tauto | constructor].
Defined.

(** [reverse] returns a connection only for the empty dictionary: with any
    entry at all, whatever its values, the call of [_flip_tuple] raises
    [TypeError] before anything is swapped. *)
Theorem reverse_raises_unless_empty (self : AnisotropicConnection) :
  reverse self =
    match aniso_species_rates self with
    | [] => Ok (mkAnisotropic [])
    | _ :: _ =>
        Raise (TypeError "_flip_tuple() takes 1 positional argument but 2 were given")
    end.
Proof.
  destruct self as [[| [k v] d]]; simpl; [reflexivity |].
  apply reverse_nonempty_raises. simpl. discriminate.
Qed.

Lemma iso_init_loop_keys (ks : list string) : forall d d' : dict RateVal,
  (forall k, In k ks -> dict_mem k d = true) ->
  for_each (fun d s =>
              k <- dict_item s d ;;
              match k with
              | Tuple2 _ _ => Ok d
              | Scalar q => Ok (dict_set s (Tuple2 q q) d)
              end) ks d = Ok d' ->
  dict_keys d' = dict_keys d.
Proof.
  induction ks as [| k ks IH]; intros d d' Hmem Hrun; simpl in Hrun.
  - now inversion Hrun.
  - assert (Hk : dict_mem k d = true) by (apply Hmem; now left).
    unfold dict_item at 1 in Hrun. unfold dict_mem in Hk.
    destruct (dict_get k d) as [v |] eqn:Hget; [| discriminate]. simpl in Hrun.
    destruct v as [q | a b]; simpl in Hrun.
    + assert (Hmem' : forall k0, In k0 ks ->
                        dict_mem k0 (dict_set k (Tuple2 q q) d) = true).
      { intros k0 Hin. apply dict_mem_set. apply Hmem. now right. }
      rewrite (IH _ _ Hmem' Hrun).
      apply dict_keys_set_mem. unfold dict_mem. now rewrite Hget.
    + apply (IH _ _ (fun k0 Hin => Hmem k0 (or_intror Hin)) Hrun).
Qed.

Lemma iso_init_loop_pairs (ks : list string) : forall d : dict RateVal,
  (forall k, In k ks -> exists a b, dict_get k d = Some (Tuple2 a b)) ->
  for_each (fun d s =>
              k <- dict_item s d ;;
              match k with
              | Tuple2 _ _ => Ok d
              | Scalar q => Ok (dict_set s (Tuple2 q q) d)
              end) ks d = Ok d.
Proof.
  induction ks as [| k ks IH]; intros d Hall; simpl; [reflexivity |].
  destruct (Hall k (or_introl eq_refl)) as [a [b Hget]].
  unfold dict_item at 1. rewrite Hget. simpl.
  apply IH. intros k0 Hin. apply Hall. now right.
Qed.

(** [IsotropicConnection.__init__] never raises.  It keeps the keys and
    their order, turns every bare rate [k] into the pair [(k, k)] and keeps
    every pair, so that a second construction from its result changes
    nothing. *)
Theorem IsotropicConnection_init_normalises (d : dict RateVal) :
  exists iso,
    IsotropicConnection_init d = Ok iso /\
    dict_keys (iso_species_rates iso) = dict_keys d /\
    (forall s, dict_get s (iso_species_rates iso) = option_map as_pair (dict_get s d)) /\
    IsotropicConnection_init (iso_species_rates iso) = Ok iso.
Proof.
  destruct (IsotropicConnection_init_spec d) as [iso [Hinit Hget]].
  exists iso. split; [exact Hinit |].
  assert (Hkeys : dict_keys (iso_species_rates iso) = dict_keys d).
  { unfold IsotropicConnection_init in Hinit.
    destruct (for_each _ (dict_keys d) d) as [d' |] eqn:Hrun; [| discriminate].
    simpl in Hinit. inversion Hinit. subst iso. simpl.
    apply (iso_init_loop_keys (dict_keys d) d d'); [| exact Hrun].
    intros k Hin. unfold dict_mem.
    destruct (dict_get_key k d Hin) as [v ->]. reflexivity. }
  split; [exact Hkeys |]. split; [exact Hget |].
  unfold IsotropicConnection_init.
  rewrite iso_init_loop_pairs; [now destruct iso |].
  intros k Hin. rewrite Hkeys in Hin.
  destruct (dict_get_key k d Hin) as [v Hv].
  rewrite Hget, Hv. destruct v as [q | a b]; simpl; eauto.
Qed.

(** ** Geometry: order of the two compartments *)

Lemma Qeq_bool_sym (x y : Q) : Qeq_bool x y = Qeq_bool y x.
Proof.
  destruct (Qeq_bool x y) eqn:E1, (Qeq_bool y x) eqn:E2; auto.
  - apply Qeq_bool_iff in E1. symmetry in E1. apply Qeq_bool_iff in E1. congruence.
  - apply Qeq_bool_iff in E2. symmetry in E2. apply Qeq_bool_iff in E2. congruence.
Qed.

Lemma adjoining_sym (p1 p2 : Q * Q) : adjoining p1 p2 = adjoining p2 p1.
Proof.
  unfold adjoining.
  rewrite (Qeq_bool_sym (snd p1) (fst p2)), (Qeq_bool_sym (fst p1) (snd p2)).
  apply orb_comm.
Qed.

Lemma py_min_sym (a b : Q) : py_min a b == py_min b a.
Proof.
  unfold py_min.
  destruct (Qcompare_spec b a) as [E1 | E1 | E1],
           (Qcompare_spec a b) as [E2 | E2 | E2]; try reflexivity; lra.
Qed.

Lemma min_face_sym (face : string) (c1 c2 : Compartment) :
  same_outcome (min_face face c1 c2) (min_face face c2 c1).
Proof.
  unfold min_face, dict_item.
  destruct (dict_get face (face_area c1)) as [a1 |],
           (dict_get face (face_area c2)) as [a2 |]; simpl; try reflexivity.
  apply py_min_sym.
Qed.

(** The surface area that [resolve_ficks] computes does not depend on which
    of the two compartments comes first: both orders raise the same
    exception or give the same area. *)
Theorem compute_surface_area_sym (c1 c2 : Compartment) :
  same_outcome (compute_surface_area c1 c2) (compute_surface_area c2 c1).
Proof.
  unfold compute_surface_area.
  destruct (pos_at (pos c1) 0) as [x1 |] eqn:X1,
           (pos_at (pos c2) 0) as [x2 |] eqn:X2; simpl; try reflexivity;
    try (unfold pos_at in *;
         repeat match goal with
                | H : match ?o with Some _ => _ | None => _ end = Raise ?e |- _ =>
                    destruct o; inversion H; clear H
                end; reflexivity).
  rewrite (adjoining_sym x2 x1).
  destruct (adjoining x1 x2); [apply min_face_sym |].
  destruct (pos_at (pos c1) 1) as [y1 |] eqn:Y1,
           (pos_at (pos c2) 1) as [y2 |] eqn:Y2; simpl; try reflexivity;
    try (unfold pos_at in *;
         repeat match goal with
                | H : match ?o with Some _ => _ | None => _ end = Raise ?e |- _ =>
                    destruct o; inversion H; clear H
                end; reflexivity).
  rewrite (adjoining_sym y2 y1).
  destruct (adjoining y1 y2); [apply min_face_sym |].
  destruct (pos_at (pos c1) 2) as [z1 |] eqn:Z1,
           (pos_at (pos c2) 2) as [z2 |] eqn:Z2; simpl; try reflexivity;
    try (unfold pos_at in *;
         repeat match goal with
                | H : match ?o with Some _ => _ | None => _ end = Raise ?e |- _ =>
                    destruct o; inversion H; clear H
                end; reflexivity).
  rewrite (adjoining_sym z2 z1).
  destruct (adjoining z1 z2); [apply min_face_sym | reflexivity].
Qed.

(** ** Geometry: the inter-center distance *)

Lemma Qsq (x : Q) : x ^ 2 == x * x.
Proof. simpl. reflexivity. Qed.

Lemma Qsq_nonneg (x : Q) : 0 <= x ^ 2.
Proof. rewrite Qsq. nra. Qed.

Lemma Qsq_opp (x y : Q) : y == - x -> y ^ 2 == x ^ 2.
Proof. intros H. rewrite !Qsq, H. ring. Qed.

Lemma wrap_opp (len dc dc' : Q) :
  0 <= len -> dc' == - dc -> wrap len dc' == - wrap len dc.
Proof.
  intros Hlen Hd. unfold wrap.
  destruct (Qcompare_spec (dc' * 2) (- len)) as [A1 | A1 | A1],
           (Qcompare_spec (dc * 2) (- len)) as [B1 | B1 | B1];
    try destruct (Qcompare_spec (dc' * 2) len) as [A2 | A2 | A2];
    try destruct (Qcompare_spec (dc * 2) len) as [B2 | B2 | B2];
    lra.
Qed.

Lemma wrap_shortens (len dc : Q) : 0 <= len -> wrap len dc ^ 2 <= dc ^ 2.
Proof.
  intros Hlen. rewrite !Qsq. unfold wrap.
  destruct (Qcompare_spec (dc * 2) (- len)) as [A1 | A1 | A1];
    try destruct (Qcompare_spec (dc * 2) len) as [A2 | A2 | A2];
    nra.
Qed.

Lemma axis_raw_opp (p1 p2 : Q * Q) : axis_raw p2 p1 == - axis_raw p1 p2.
Proof. unfold axis_raw. ring. Qed.

Lemma axis_term_sq_sym (p : bool) (len : Q) (p1 p2 : Q * Q) :
  (p = true -> 0 <= len) ->
  axis_term p len p2 p1 ^ 2 == axis_term p len p1 p2 ^ 2.
Proof.
  intros Hlen. apply Qsq_opp. unfold axis_term. destruct p.
  - apply wrap_opp; [now apply Hlen | apply axis_raw_opp].
  - apply axis_raw_opp.
Qed.

Lemma axis_term_sq_le (p : bool) (len : Q) (p1 p2 : Q * Q) :
  (p = true -> 0 <= len) ->
  axis_term p len p1 p2 ^ 2 <= axis_raw p1 p2 ^ 2.
Proof.
  intros Hlen. unfold axis_term. destruct p.
  - apply wrap_shortens. now apply Hlen.
  - apply Qle_refl.
Qed.

Lemma squared_distance_closed (self : Model) (c1 c2 : Compartment)
    (x1 y1 z1 x2 y2 z2 : Q * Q) (px py pz : bool) (lx ly lz : Q) :
  pos c1 = [x1; y1; z1] -> pos c2 = [x2; y2; z2] ->
  periodic self = Some [px; py; pz] -> box_len self = Some [lx; ly; lz] ->
  squared_distance self c1 c2 =
    Ok (0 + axis_term px lx x1 x2 ^ 2 + axis_term py ly y1 y2 ^ 2
        + axis_term pz lz z1 z2 ^ 2).
Proof.
  intros P1 P2 Hper Hbox.
  unfold squared_distance, center_displacements, wrapped_displacement.
  rewrite P1, P2, Hper, Hbox. unfold axis_term.
  destruct px, py, pz; reflexivity.
Qed.

(** With box lengths that are not negative on the periodic axes, the
    distance between two compartments is the same in both directions: the
    sums that [np.sqrt] is applied to are equal. *)
Theorem squared_distance_sym (self : Model) (c1 c2 : Compartment)
    (x1 y1 z1 x2 y2 z2 : Q * Q) (px py pz : bool) (lx ly lz : Q) :
  pos c1 = [x1; y1; z1] -> pos c2 = [x2; y2; z2] ->
  periodic self = Some [px; py; pz] -> box_len self = Some [lx; ly; lz] ->
  (px = true -> 0 <= lx) -> (py = true -> 0 <= ly) -> (pz = true -> 0 <= lz) ->
  exists s12 s21,
    squared_distance self c1 c2 = Ok s12 /\
    squared_distance self c2 c1 = Ok s21 /\
    s12 == s21.
Proof.
  intros P1 P2 Hper Hbox Hx Hy Hz.
  eexists. eexists.
  split; [exact (squared_distance_closed _ _ _ _ _ _ _ _ _ _ _ _ _ _ _ P1 P2 Hper Hbox) |].
  split; [exact (squared_distance_closed _ _ _ _ _ _ _ _ _ _ _ _ _ _ _ P2 P1 Hper Hbox) |].
  rewrite (axis_term_sq_sym px lx x1 x2 Hx), (axis_term_sq_sym py ly y1 y2 Hy),
          (axis_term_sq_sym pz lz z1 z2 Hz).
  reflexivity.
Qed.

Lemma squared_distance_sym_witness :
  exists s12 s21,
    squared_distance periodic_xy near_a far_b = Ok s12 /\
    squared_distance periodic_xy far_b near_a = Ok s21 /\
    s12 == s21.
Proof.
  apply (squared_distance_sym periodic_xy near_a far_b
           (9, 10) (0, 1) (0, 1) (0, 1) (0, 1) (0, 1) true true false 10 10 10);
    try reflexivity; intros _; discriminate.
Defined.

(** With box lengths that are not negative on the periodic axes, the sum
    under the square root is never negative and never exceeds the sum of the
    squared center displacements: the periodic shift cannot lengthen a
    distance. *)
Theorem squared_distance_bounds (self : Model) (c1 c2 : Compartment)
    (x1 y1 z1 x2 y2 z2 : Q * Q) (px py pz : bool) (lx ly lz : Q) :
  pos c1 = [x1; y1; z1] -> pos c2 = [x2; y2; z2] ->
  periodic self = Some [px; py; pz] -> box_len self = Some [lx; ly; lz] ->
  (px = true -> 0 <= lx) -> (py = true -> 0 <= ly) -> (pz = true -> 0 <= lz) ->
  exists s,
    squared_distance self c1 c2 = Ok s /\
    0 <= s /\
    s <= axis_raw x1 x2 ^ 2 + axis_raw y1 y2 ^ 2 + axis_raw z1 z2 ^ 2.
Proof.
  intros P1 P2 Hper Hbox Hx Hy Hz.
  eexists.
  split; [exact (squared_distance_closed _ _ _ _ _ _ _ _ _ _ _ _ _ _ _ P1 P2 Hper Hbox) |].
  pose proof (Qsq_nonneg (axis_term px lx x1 x2)).
  pose proof (Qsq_nonneg (axis_term py ly y1 y2)).
  pose proof (Qsq_nonneg (axis_term pz lz z1 z2)).
  pose proof (axis_term_sq_le px lx x1 x2 Hx).
  pose proof (axis_term_sq_le py ly y1 y2 Hy).
  pose proof (axis_term_sq_le pz lz z1 z2 Hz).
  split; lra.
Qed.

Lemma squared_distance_bounds_witness :
  exists s,
    squared_distance periodic_xy near_a far_b = Ok s /\
    0 <= s /\
    s <= axis_raw (9, 10) (0, 1) ^ 2 + axis_raw (0, 1) (0, 1) ^ 2
         + axis_raw (0, 1) (0, 1) ^ 2.
Proof.
  apply (squared_distance_bounds periodic_xy near_a far_b
           (9, 10) (0, 1) (0, 1) (0, 1) (0, 1) (0, 1) true true false 10 10 10);
    try reflexivity; intros _; discriminate.
Defined.

(** ** [Model.add_array] *)

Lemma nth_error_app_len {A : Type} (l1 l2 : list A) (x : A) :
  nth_error (l1 ++ x :: l2) (List.length l1) = Some x.
Proof. rewrite nth_error_app2 by lia. now rewrite Nat.sub_diag. Qed.

Lemma list_update_app_len {A : Type} (l1 l2 : list A) (x y : A) :
  list_update (l1 ++ x :: l2) (List.length l1) y = (l1 ++ y :: l2)%list.
Proof. induction l1 as [| z l1 IH]; simpl; [reflexivity | now rewrite IH]. Qed.

Lemma stacked_length (ml al : list Q) :
  List.length ml = List.length al -> List.length (stacked ml al) = List.length al.
Proof.
  intros H. unfold stacked. rewrite length_map, length_combine. lia.
Qed.

Lemma box_write_get (boxes : BoxStore) (r i : nat) (x : Q) (l : list Q) :
  nth_error boxes r = Some l ->
  nth_error (box_write boxes r i x) r = Some (list_update l i x) /\
  (forall r', r' <> r -> nth_error (box_write boxes r i x) r' = nth_error boxes r') /\
  List.length (box_write boxes r i x) = List.length boxes.
Proof.
  intros H. unfold box_write. rewrite H. repeat split.
  - apply nth_error_update_same. apply nth_error_Some. congruence.
  - intros r' Hne. apply nth_error_update_other. congruence.
  - apply list_update_length.
Qed.

Section StackBoxes.
Variable pl : list bool.
Variables mbox abox : ref.
Hypothesis Hne : mbox <> abox.

Lemma stack_boxes_from (arest : list Q) :
  forall (mrest : list Q) (prest : list bool) (tdone adone : list Q)
         (pdone : list bool) (b : BoxStore),
  List.length tdone = List.length adone ->
  List.length pdone = List.length adone ->
  List.length mrest = List.length arest ->
  List.length prest = List.length arest ->
  pl = (pdone ++ prest)%list ->
  nth_error b mbox = Some (tdone ++ mrest)%list ->
  nth_error b abox = Some (adone ++ arest)%list ->
  exists b',
    stack_boxes (Some pl) mbox abox (seq (List.length adone) (List.length arest)) b
      = (b', if periodic_mismatch prest mrest arest
             then Raise different_size else Ok tt) /\
    (forall r, r <> mbox -> nth_error b' r = nth_error b r) /\
    List.length b' = List.length b /\
    (periodic_mismatch prest mrest arest = false ->
     nth_error b' mbox = Some (tdone ++ stacked mrest arest)%list).
Proof.
  induction arest as [| a arest IH];
    intros mrest prest tdone adone pdone b Ht Hp Hm Hpr Hpl Hmb Hab.
  - destruct mrest; [| discriminate]. destruct prest; [| discriminate].
    exists b. simpl. repeat split; auto.
  - destruct mrest as [| m mrest]; [discriminate |].
    destruct prest as [| p prest]; [discriminate |].
    simpl in Hm, Hpr. cbn [List.length seq stack_boxes].
    assert (E1 : nth_error (tdone ++ m :: mrest) (List.length adone) = Some m)
      by (rewrite <- Ht; apply nth_error_app_len).
    assert (E2 : nth_error (adone ++ a :: arest) (List.length adone) = Some a)
      by apply nth_error_app_len.
    assert (E3 : nth_error pl (List.length adone) = Some p)
      by (rewrite Hpl, <- Hp; apply nth_error_app_len).
    unfold box_at, list_at. rewrite Hmb, Hab. cbn [bind].
    rewrite E1, E2. cbn [bind].
    cbn [periodic_mismatch].
    assert (Hseq : S (List.length adone) = List.length (adone ++ [a])%list)
      by (rewrite length_app; simpl; lia).
    destruct (Qeq_bool m a) eqn:Heq; cbn [negb andb orb].
    + destruct (IH mrest prest (tdone ++ [m])%list (adone ++ [a])%list
                   (pdone ++ [p])%list b) as [b' [Hrun [Hoth [Hlen Hres]]]];
        try (rewrite !length_app; simpl; lia); try lia.
      * now rewrite <- app_assoc.
      * now rewrite <- app_assoc.
      * now rewrite <- app_assoc.
      * exists b'. rewrite Hseq. split; [exact Hrun |].
        split; [exact Hoth |]. split; [exact Hlen |].
        intros Hno. rewrite (Hres Hno), <- app_assoc.
        unfold stacked. simpl. now rewrite Heq.
    + unfold opt_list_at. rewrite E3.
      destruct p; cbn [orb].
      * exists b. repeat split; auto. discriminate.
      * destruct (box_write_get b mbox (List.length adone) (m + a) _ Hmb)
          as [Hw [Hwo Hwl]].
        assert (Hw' : nth_error (box_write b mbox (List.length adone) (m + a)) mbox
                      = Some (tdone ++ (m + a) :: mrest)%list).
        { rewrite Hw. f_equal. rewrite <- Ht. apply list_update_app_len. }
        destruct (IH mrest prest (tdone ++ [m + a])%list (adone ++ [a])%list
                     (pdone ++ [false])%list
                     (box_write b mbox (List.length adone) (m + a)))
          as [b' [Hrun [Hoth [Hlen Hres]]]];
          try (rewrite !length_app; simpl; lia); try lia.
        -- now rewrite <- app_assoc.
        -- rewrite <- app_assoc. exact Hw'.
        -- rewrite Hwo by congruence. now rewrite <- app_assoc.
        -- exists b'. rewrite Hseq. split; [exact Hrun |].
           split; [intros r Hr; rewrite Hoth, Hwo by assumption; reflexivity |].
           split; [lia |].
           intros Hno. rewrite (Hres Hno), <- app_assoc.
           unfold stacked. simpl. now rewrite Heq.
Qed.
End StackBoxes.

Lemma bools_eqb_eq (p q : list bool) : bools_eqb p q = true <-> p = q.
Proof.
  revert q. induction p as [| a p IH]; intros [| b q]; simpl;
    try (split; [discriminate | discriminate]); [tauto |].
  rewrite andb_true_iff, IH, Bool.eqb_true_iff. split.
  - intros [-> ->]. reflexivity.
  - intros H. inversion H. auto.
Qed.

(** An array whose periodicity differs from the model's is rejected with
    [ValueError] before anything is written: the store and the model are
    the ones before the call. *)
Theorem add_array_incompatible (boxes : BoxStore) (self : ModelObj)
    (array : ArrayObj) (p : list bool) :
  mo_periodic self = Some p -> p <> ao_periodic array ->
  add_array boxes self array = ((boxes, self), Raise incompatible_periodicity).
Proof.
  intros Hp Hne. unfold add_array. rewrite Hp.
  destruct (bools_eqb p (ao_periodic array)) eqn:E; [| reflexivity].
  apply bools_eqb_eq in E. contradiction.
Qed.

Lemma add_array_incompatible_witness :
  add_array two_boxes one_array_model
            (mkArrayObj "upper" [true; false; false] 1%nat [])
  = ((two_boxes, one_array_model), Raise incompatible_periodicity).
Proof.
  apply (add_array_incompatible two_boxes one_array_model _ [true; true; false]);
    [reflexivity | discriminate].
Defined.

Lemma add_array_stacking (boxes : BoxStore) (self : ModelObj) (array : ArrayObj)
    (pl : list bool) (mbox : ref) (ml al : list Q) :
  mo_periodic self = Some pl -> ao_periodic array = pl ->
  mo_box_len self = Some mbox -> mbox <> ao_box_len array ->
  nth_error boxes mbox = Some ml -> nth_error boxes (ao_box_len array) = Some al ->
  List.length ml = List.length al -> List.length pl = List.length al ->
  periodic_mismatch pl ml al = false ->
  exists boxes',
    add_array boxes self array =
      (if dict_mem (ao_array_ID array) (mo_arrays self)
       then ((boxes', self), Raise (duplicate_array (ao_array_ID array)))
       else ((boxes',
              mkModelObj (mo_compartments self)
                         (dict_set (ao_array_ID array) array (mo_arrays self))
                         (Some pl) (Some mbox)),
             Ok tt)) /\
    nth_error boxes' mbox = Some (stacked ml al) /\
    nth_error boxes' (ao_box_len array) = Some al.
Proof.
  intros Hp Hap Hb Hne Hml Hal Hlen Hplen Hno.
  destruct (stack_boxes_from pl mbox (ao_box_len array) Hne al ml pl [] [] [] boxes)
    as [boxes' [Hrun [Hoth [_ Hres]]]]; auto.
  rewrite Hno in Hrun. simpl in Hrun.
  exists boxes'. split; [| split].
  - unfold add_array. rewrite Hp, Hb, Hap.
    assert (E : bools_eqb pl pl = true) by now apply bools_eqb_eq.
    rewrite E. unfold box_at. rewrite Hal, Hrun.
    destruct self as [cs arrs per box]. simpl in *. subst per box.
    destruct (dict_mem (ao_array_ID array) arrs); reflexivity.
  - exact (Hres Hno).
  - rewrite Hoth by congruence. exact Hal.
Qed.

(** Adding an array of the model's periodicity whose list of box lengths is
    another object than the model's: when every dimension in which the two
    lists differ is not periodic, the model's list is overwritten in place
    with the sum in those dimensions and the array's list is left alone.
    This happens before the array ID is looked at, so an array that is then
    rejected as a duplicate has already changed the box. *)
Theorem add_array_stacks (boxes : BoxStore) (self : ModelObj) (array : ArrayObj)
    (pl : list bool) (mbox : ref) (ml al : list Q) :
  mo_periodic self = Some pl -> ao_periodic array = pl ->
  mo_box_len self = Some mbox -> mbox <> ao_box_len array ->
  nth_error boxes mbox = Some ml -> nth_error boxes (ao_box_len array) = Some al ->
  List.length ml = List.length al -> List.length pl = List.length al ->
  periodic_mismatch pl ml al = false ->
  exists boxes',
    add_array boxes self array =
      (if dict_mem (ao_array_ID array) (mo_arrays self)
       then ((boxes', self), Raise (duplicate_array (ao_array_ID array)))
       else ((boxes',
              mkModelObj (mo_compartments self)
                         (dict_set (ao_array_ID array) array (mo_arrays self))
                         (Some pl) (Some mbox)),
             Ok tt)) /\
    nth_error boxes' mbox = Some (stacked ml al) /\
    nth_error boxes' (ao_box_len array) = Some al.
Proof.
  intros Hp Hap Hb Hne Hml Hal Hlen Hplen Hno.
  exact (add_array_stacking boxes self array pl mbox ml al
           Hp Hap Hb Hne Hml Hal Hlen Hplen Hno).
Qed.

Lemma add_array_stacks_witness :
  exists boxes',
    add_array two_boxes one_array_model upper_array =
      ((boxes',
        mkModelObj [] [("lower", lower_array); ("upper", upper_array)]
                   (Some [true; true; false]) (Some 0%nat)),
       Ok tt) /\
    nth_error boxes' (ao_box_len lower_array) = Some [10; 10; 2 + 5].
Proof.
  destruct (add_array_stacks two_boxes one_array_model upper_array
              [true; true; false] 0%nat [10; 10; 2] [10; 10; 5])
    as [boxes' [Hrun [Hm _]]]; try reflexivity; try discriminate.
  exists boxes'. split; [exact Hrun | exact Hm].
Defined.

(** When the two lists differ in a periodic dimension the array is
    rejected with [ValueError] and is not registered. *)
Theorem add_array_different_size (boxes : BoxStore) (self : ModelObj)
    (array : ArrayObj) (pl : list bool) (mbox : ref) (ml al : list Q) :
  mo_periodic self = Some pl -> ao_periodic array = pl ->
  mo_box_len self = Some mbox -> mbox <> ao_box_len array ->
  nth_error boxes mbox = Some ml -> nth_error boxes (ao_box_len array) = Some al ->
  List.length ml = List.length al -> List.length pl = List.length al ->
  periodic_mismatch pl ml al = true ->
  exists boxes',
    add_array boxes self array = ((boxes', self), Raise different_size) /\
    nth_error boxes' (ao_box_len array) = Some al.
Proof.
  intros Hp Hap Hb Hne Hml Hal Hlen Hplen Hyes.
  destruct (stack_boxes_from pl mbox (ao_box_len array) Hne al ml pl [] [] [] boxes)
    as [boxes' [Hrun [Hoth _]]]; auto.
  rewrite Hyes in Hrun. simpl in Hrun.
  exists boxes'. split.
  - unfold add_array. rewrite Hp, Hb, Hap.
    assert (E : bools_eqb pl pl = true) by now apply bools_eqb_eq.
    rewrite E. unfold box_at. rewrite Hal, Hrun.
    destruct self as [cs arrs per box]. simpl in *. now subst per box.
  - rewrite Hoth by congruence. exact Hal.
Qed.

Lemma add_array_different_size_witness :
  exists boxes',
    add_array [[10; 10; 2]; [10; 12; 5]] one_array_model upper_array
      = ((boxes', one_array_model), Raise different_size).
Proof.
  destruct (add_array_different_size [[10; 10; 2]; [10; 12; 5]] one_array_model
              upper_array [true; true; false] 0%nat [10; 10; 2] [10; 12; 5])
    as [boxes' [Hrun _]]; try reflexivity; try discriminate.
  exists boxes'. exact Hrun.
Defined.

Lemma Qeq_bool_refl (x : Q) : Qeq_bool x x = true.
Proof. apply Qeq_bool_iff. reflexivity. Qed.

Lemma stack_boxes_same_list (per : option (list bool)) (r : ref) (boxes : BoxStore)
    (l : list Q) (idxs : list nat) :
  nth_error boxes r = Some l ->
  (forall i, In i idxs -> (i < List.length l)%nat) ->
  stack_boxes per r r idxs boxes = (boxes, Ok tt).
Proof.
  intros Hl. induction idxs as [| i idxs IH]; intros Hall; simpl; [reflexivity |].
  unfold box_at, list_at. rewrite Hl. simpl.
  assert (Hi : (i < List.length l)%nat) by (apply Hall; now left).
  apply nth_error_Some in Hi.
  destruct (nth_error l i) as [x |]; [| congruence]. simpl.
  rewrite Qeq_bool_refl. apply IH. intros j Hj. apply Hall. now right.
Qed.

(** An array whose list of box lengths is the model's own list (as it is
    for the first array a model received) passes the size check whatever
    the lengths are and leaves them as they are; the call can only fail on
    the periodicity, when the array's differs from the model's, or else on
    the array ID, when the model already holds it. *)
Theorem add_array_same_list (boxes : BoxStore) (self : ModelObj) (array : ArrayObj)
    (pl : list bool) (l : list Q) :
  mo_periodic self = Some pl ->
  mo_box_len self = Some (ao_box_len array) ->
  nth_error boxes (ao_box_len array) = Some l ->
  add_array boxes self array =
    if bools_eqb pl (ao_periodic array)
    then if dict_mem (ao_array_ID array) (mo_arrays self)
         then ((boxes, self), Raise (duplicate_array (ao_array_ID array)))
         else ((boxes,
                mkModelObj (mo_compartments self)
                           (dict_set (ao_array_ID array) array (mo_arrays self))
                           (Some pl) (Some (ao_box_len array))),
               Ok tt)
    else ((boxes, self), Raise incompatible_periodicity).
Proof.
  intros Hp Hb Hl. unfold add_array. rewrite Hp, Hb.
  destruct (bools_eqb pl (ao_periodic array)); [| reflexivity].
  unfold box_at. rewrite Hl.
  rewrite (stack_boxes_same_list _ _ _ l) by
    (auto; intros i Hi; apply in_seq in Hi; lia).
  destruct self as [cs arrs per box]. simpl in *. subst per box.
  destruct (dict_mem (ao_array_ID array) arrs); reflexivity.
Qed.

Lemma add_array_same_list_witness :
  add_array two_boxes one_array_model lower_array
  = ((two_boxes, one_array_model), Raise (duplicate_array "lower")).
Proof.
  apply (add_array_same_list two_boxes one_array_model lower_array
           [true; true; false] [10; 10; 2]); reflexivity.
Defined.

(** The first array a model receives lends it its list of box lengths: once
    a second array with other lengths in a non-periodic dimension is added,
    the first array's own list holds the sums. *)
Theorem add_two_arrays (boxes : BoxStore) (cs : dict ref) (A B : ArrayObj)
    (la lb : list Q) :
  ao_periodic B = ao_periodic A ->
  ao_array_ID B <> ao_array_ID A ->
  ao_box_len A <> ao_box_len B ->
  nth_error boxes (ao_box_len A) = Some la ->
  nth_error boxes (ao_box_len B) = Some lb ->
  List.length la = List.length lb ->
  List.length (ao_periodic A) = List.length lb ->
  periodic_mismatch (ao_periodic A) la lb = false ->
  exists m1 boxes' m2,
    add_array boxes (mkModelObj cs [] None None) A = ((boxes, m1), Ok tt) /\
    add_array boxes m1 B = ((boxes', m2), Ok tt) /\
    dict_keys (mo_arrays m2) = [ao_array_ID A; ao_array_ID B] /\
    mo_box_len m2 = Some (ao_box_len A) /\
    nth_error boxes' (ao_box_len A) = Some (stacked la lb) /\
    nth_error boxes' (ao_box_len B) = Some lb.
Proof.
  intros Hper Hid Hbox Hla Hlb Hlen Hplen Hno.
  set (m1 := mkModelObj cs [(ao_array_ID A, A)] (Some (ao_periodic A))
                        (Some (ao_box_len A))).
  destruct (add_array_stacking boxes m1 B (ao_periodic A) (ao_box_len A) la lb)
    as [boxes' [Hrun [Hm Hb]]]; auto.
  assert (Hnew : dict_mem (ao_array_ID B) (mo_arrays m1) = false).
  { unfold dict_mem. simpl. destruct (String.eqb_spec (ao_array_ID B) (ao_array_ID A));
      [contradiction | reflexivity]. }
  rewrite Hnew in Hrun.
  exists m1, boxes'. eexists. split; [reflexivity |].
  split; [exact Hrun |]. simpl.
  destruct (String.eqb_spec (ao_array_ID B) (ao_array_ID A)); [contradiction |].
  simpl. auto.
Qed.

Lemma add_two_arrays_witness :
  exists m1 boxes' m2,
    add_array two_boxes (mkModelObj [] [] None None) lower_array
      = ((two_boxes, m1), Ok tt) /\
    add_array two_boxes m1 upper_array = ((boxes', m2), Ok tt) /\
    nth_error boxes' (ao_box_len lower_array) = Some [10; 10; 2 + 5].
Proof.
  destruct (add_two_arrays two_boxes [] lower_array upper_array
              [10; 10; 2] [10; 10; 5])
    as [m1 [boxes' [m2 [H1 [H2 [_ [_ [H3 _]]]]]]]];
    try reflexivity; try discriminate.
  exists m1, boxes', m2. repeat split; assumption.
Defined.

(** ** [Model.__init__] *)

Lemma add_array_keeps_compartments (boxes : BoxStore) (self : ModelObj)
    (array : ArrayObj) :
  mo_compartments (snd (fst (add_array boxes self array))) = mo_compartments self.
Proof.
  unfold add_array.
  destruct (mo_periodic self) as [p |];
    [destruct (bools_eqb p (ao_periodic array)); [| reflexivity] |];
    (destruct (mo_box_len self) as [mbox |];
     [ destruct (box_at boxes (ao_box_len array)) as [al |]; [| reflexivity];
       destruct (stack_boxes _ mbox (ao_box_len array) _ boxes) as [boxes' [[] | e]];
       [| reflexivity] |];
     destruct (dict_mem (ao_array_ID array) (mo_arrays self)); reflexivity).
Qed.

Lemma add_arrays_keeps_compartments (arrays : list ArrayObj) :
  forall boxes self,
  mo_compartments (snd (fst (add_arrays boxes self arrays))) = mo_compartments self.
Proof.
  induction arrays as [| a arrays IH]; intros boxes self; simpl; [reflexivity |].
  pose proof (add_array_keeps_compartments boxes self a) as Hk.
  destruct (add_array boxes self a) as [[boxes' self'] [[] | e]]; simpl in *.
  - now rewrite IH.
  - exact Hk.
Qed.

(** The constructor never returns a model when it is given a compartment:
    whatever the arrays and the compartments are, [Model(arrays,
    compartments)] with a non-empty [compartments] raises, and when the
    arrays were all accepted the exception is the [AttributeError] of
    [add_compartment] on the first compartment. *)
Theorem Model_init_with_compartments (st : Store) (boxes : BoxStore)
    (arrays : list ArrayObj) (c : ref) (cs : list ref) (C : Compartment) :
  nth_error (comps st) c = Some C ->
  exists e,
    snd (Model_init st boxes arrays (c :: cs)) = Raise e /\
    (snd (add_arrays boxes (mkModelObj [] [] None None) arrays) = Ok tt ->
     e = AttributeError "comparments").
Proof.
  intros HC. unfold Model_init.
  pose proof (add_arrays_keeps_compartments arrays boxes (mkModelObj [] [] None None))
    as Hk.
  destruct (add_arrays boxes (mkModelObj [] [] None None) arrays)
    as [[boxes' self] [[] | e]]; simpl in *.
  - unfold ModelObj_add_compartment, deref_comp. rewrite HC, Hk. simpl.
    exists (AttributeError "comparments"). auto.
  - exists e. split; [reflexivity | discriminate].
Qed.

Lemma Model_init_with_compartments_witness :
  snd (Model_init sample_store two_boxes [lower_array; upper_array] [0%nat])
  = Raise (AttributeError "comparments").
Proof.
  destruct (Model_init_with_compartments sample_store two_boxes
              [lower_array; upper_array] 0%nat []
              (mkCompartment "a" None [(0, 1); (0, 1); (0, 1)] []
                 (mkQuantity 2 liter) [binding] [("b", (1%nat, sample_leak))])
              eq_refl) as [e [Hrun He]].
  exact (eq_trans Hrun (f_equal Raise (He eq_refl))).
Defined.

(** ** Flattening: what the namespace is *)

Lemma for_each_app {A S : Type} (f : S -> A -> result S) (l1 l2 : list A) :
  forall acc,
  for_each f (l1 ++ l2) acc = (acc' <- for_each f l1 acc ;; for_each f l2 acc').
Proof.
  induction l1 as [| x l1 IH]; intros acc; simpl; [reflexivity |].
  destruct (f acc x) as [acc1 |]; simpl; [apply IH | reflexivity].
Qed.

Lemma for_each_flat_map {A B S : Type} (f : S -> B -> result S) (g : A -> list B)
    (l : list A) : forall acc,
  for_each (fun acc a => for_each f (g a) acc) l acc = for_each f (flat_map g l) acc.
Proof.
  induction l as [| a l IH]; intros acc; simpl; [reflexivity |].
  rewrite for_each_app.
  destruct (for_each f (g a) acc) as [acc1 |]; simpl; [apply IH | reflexivity].
Qed.

Lemma flatten_namespace_loop (makeID : option string -> string -> string)
    (self : Model) (st : Store) :
  flatten_namespace makeID self st =
    FlatModel_add_compartments makeID (st, mkFlatModel []) (source_compartments self).
Proof.
  unfold flatten_namespace, FlatModel_add_compartments, source_compartments.
  rewrite for_each_app.
  destruct (for_each _ (dict_values (compartments self)) _) as [acc |]; simpl;
    [| reflexivity].
  apply (for_each_flat_map (FlatModel_add_compartment makeID)
           (fun a => dict_values (arr_compartments a))).
Qed.

Lemma dict_get_none_not_key {V : Type} (k : string) (d : dict V) :
  dict_get k d = None -> ~ In k (dict_keys d).
Proof.
  intros Hn Hin. destruct (dict_get_key k d Hin) as [v Hv]. congruence.
Qed.

Lemma dict_set_new {V : Type} (k : string) (v : V) (d : dict V) :
  ~ In k (dict_keys d) -> dict_set k v d = (d ++ [(k, v)])%list.
Proof.
  induction d as [| [k' v'] d IH]; simpl; intros Hnot; [reflexivity |].
  destruct (String.eqb_spec k k') as [-> | Hne]; [tauto |].
  rewrite IH by tauto. reflexivity.
Qed.

Section NamespaceExact.
Variable makeID : option string -> string -> string.

Lemma add_loop_exact (refs : list ref) (Cs : list Compartment) :
  forall (st : Store) (fm : dict ref),
  Forall2 (fun c C => nth_error (comps st) c = Some C) refs Cs ->
  NoDup (dict_keys fm ++ map (flat_id makeID) Cs)%list ->
  FlatModel_add_compartments makeID (st, mkFlatModel fm) refs =
    Ok (mkStore (comps st ++ map (fun C => Compartment_copy C (flat_id makeID C)) Cs)%list
                (ficks st),
        mkFlatModel (fm ++ combine (map (flat_id makeID) Cs)
                                   (seq (List.length (comps st)) (List.length Cs)))%list).
Proof.
  unfold FlatModel_add_compartments. revert Cs.
  induction refs as [| c refs IH]; intros Cs st fm Hall Hnd; inversion Hall; subst.
  - simpl. rewrite !app_nil_r. now destruct st.
  - rename y into C. rename l' into Cs'. simpl.
    unfold FlatModel_add_compartment at 1, deref_comp. simpl.
    match goal with H : nth_error (comps st) c = Some C |- _ => rewrite H end.
    simpl. fold (flat_id makeID C).
    assert (Hnew : ~ In (flat_id makeID C) (dict_keys fm)).
    { simpl in Hnd. apply NoDup_remove_2 in Hnd. intros Hin. apply Hnd.
      apply in_or_app. now left. }
    unfold dict_mem. rewrite (dict_get_not_key _ _ Hnew). simpl.
    rewrite (dict_set_new _ _ _ Hnew).
    assert (Hvalid : Forall2
              (fun c' C' =>
                 nth_error (comps (mkStore
                   (comps st ++ [Compartment_copy C (flat_id makeID C)])%list
                   (ficks st))) c' = Some C') refs Cs').
    { simpl. eapply Forall2_impl; [| eassumption].
      intros c' C' Hc. simpl in Hc. rewrite nth_error_app1; [exact Hc |].
      apply nth_error_Some. congruence. }
    assert (Hnd' : NoDup (dict_keys (fm ++ [(flat_id makeID C,
                                             List.length (comps st))])%list
                          ++ map (flat_id makeID) Cs')%list).
    { unfold dict_keys in *. rewrite map_app. simpl. rewrite <- app_assoc.
      exact Hnd. }
    pose proof (IH _ _ _ Hvalid Hnd') as Hrec. simpl in Hrec.
    etransitivity; [exact Hrec |].
    rewrite <- !app_assoc, length_app. simpl.
    rewrite Nat.add_1_r. reflexivity.
Qed.
End NamespaceExact.

Lemma map_fst_combine_eq {A B : Type} (l : list A) : forall l' : list B,
  List.length l = List.length l' -> map fst (combine l l') = l.
Proof.
  induction l as [| x l IH]; intros [| y l'] H; simpl in *; try discriminate;
    [reflexivity |].
  f_equal. apply IH. lia.
Qed.

(** When the compartments of a model flatten to distinct IDs, the namespace
    has exactly those IDs as keys, in the order standalone compartments
    first and then array by array, each mapped to a new copy at the end of
    the store; the compartments of the model and the Ficks connections stay
    as they were. *)
Theorem flatten_namespace_exact (makeID : option string -> string -> string)
    (self : Model) (st : Store) (Cs : list Compartment) :
  Forall2 (fun c C => nth_error (comps st) c = Some C) (source_compartments self) Cs ->
  NoDup (map (flat_id makeID) Cs) ->
  flatten_namespace makeID self st =
    Ok (mkStore (comps st ++ map (fun C => Compartment_copy C (flat_id makeID C)) Cs)%list
                (ficks st),
        mkFlatModel (combine (map (flat_id makeID) Cs)
                             (seq (List.length (comps st)) (List.length Cs)))).
Proof.
  intros Hall Hnd. rewrite flatten_namespace_loop.
  exact (add_loop_exact makeID _ Cs st [] Hall Hnd).
Qed.

Lemma flatten_namespace_exact_witness :
  exists st1 fm,
    flatten_namespace sample_makeID lonely_model lonely_store = Ok (st1, fm) /\
    dict_keys (flat_compartments fm) = ["bulk-0_0_0"] /\
    List.length (comps st1) = 2%nat.
Proof.
  eexists. eexists. split.
  - apply (flatten_namespace_exact sample_makeID lonely_model lonely_store
             (comps lonely_store)).
    + repeat constructor.
    + repeat constructor. simpl. tauto.
  - split; reflexivity.
Defined.

(** A compartment whose flattened ID was already given to an earlier
    compartment of the model stops the flattening: [flatten] raises the
    duplicate-ID error for that ID, whatever follows in the model. *)
Theorem flatten_duplicate_id (makeID : option string -> string -> string)
    (length_unit : Unit) (np_sqrt : Q -> Q) (self : Model) (st : Store)
    (r1 r2 : list ref) (c : ref) (Cs1 : list Compartment) (C : Compartment) :
  source_compartments self = (r1 ++ c :: r2)%list ->
  Forall2 (fun c C => nth_error (comps st) c = Some C) r1 Cs1 ->
  nth_error (comps st) c = Some C ->
  NoDup (map (flat_id makeID) Cs1) ->
  In (flat_id makeID C) (map (flat_id makeID) Cs1) ->
  flatten makeID length_unit np_sqrt self st
    = Raise (duplicate_compartment (flat_id makeID C)).
Proof.
  intros Hsrc Hall HC Hnd Hin.
  unfold flatten. rewrite flatten_namespace_loop, Hsrc.
  unfold FlatModel_add_compartments. rewrite for_each_app.
  pose proof (add_loop_exact makeID r1 Cs1 st [] Hall Hnd) as Hrun.
  unfold FlatModel_add_compartments in Hrun. rewrite Hrun. simpl.
  unfold FlatModel_add_compartment at 1, deref_comp. simpl.
  rewrite nth_error_app1 by (apply nth_error_Some; congruence).
  rewrite HC. simpl. fold (flat_id makeID C).
  match goal with
  | |- context [if ?b then Raise _ else _] => assert (Hmem : b = true)
  end.
  { unfold dict_mem.
    destruct (@dict_get_key ref (flat_id makeID C)
                (combine (map (flat_id makeID) Cs1)
                         (seq (List.length (comps st)) (List.length Cs1))))
      as [v ->]; [| reflexivity].
    unfold dict_keys. rewrite map_fst_combine_eq; [exact Hin |].
    now rewrite length_map, length_seq. }
  rewrite Hmem. reflexivity.
Qed.

Lemma flatten_duplicate_id_witness :
  flatten sample_makeID meter (fun x => x) twin_model twin_store
  = Raise (duplicate_compartment "bulk-0").
Proof.
  apply (flatten_duplicate_id sample_makeID meter (fun x => x) twin_model twin_store
           [1%nat] [] 0%nat
           [mkCompartment "bulk-0" None [] [] (mkQuantity 1 liter) [] []]
           (mkCompartment "0" (Some "bulk") [] [] (mkQuantity 1 liter) [] [])).
  - reflexivity.
  - repeat constructor.
  - reflexivity.
  - repeat constructor. simpl. tauto.
  - simpl. now left.
Defined.

(** ** Flattening: missing compartments and models without Ficks connections *)

(** [find_missing_compartments] returns exactly the connection keys of the
    flat compartments that are not keys of the flat model, so its result is
    empty exactly when every connection refers to a compartment that is
    there. *)
Theorem find_missing_compartments_spec (st : Store) (self : FlatModel) :
  (forall r, In r (dict_values (flat_compartments self)) ->
             (r < List.length (comps st))%nat) ->
  exists missing,
    find_missing_compartments st self = Ok missing /\
    (forall nbor,
       In nbor missing <->
       exists r c, In r (dict_values (flat_compartments self)) /\
                   nth_error (comps st) r = Some c /\
                   In nbor (dict_keys (connections c)) /\
                   dict_mem nbor (flat_compartments self) = false) /\
    (missing = [] <->
     forall r c nbor, In r (dict_values (flat_compartments self)) ->
                      nth_error (comps st) r = Some c ->
                      In nbor (dict_keys (connections c)) ->
                      dict_mem nbor (flat_compartments self) = true).
Proof.
  intros Hval.
  destruct (find_missing_outer st self (dict_values (flat_compartments self)) [] Hval)
    as [missing [Hrun Hiff]].
  exists missing. split; [exact Hrun |].
  assert (Hiff' : forall nbor, In nbor missing <->
            exists r c, In r (dict_values (flat_compartments self)) /\
                        nth_error (comps st) r = Some c /\
                        In nbor (dict_keys (connections c)) /\
                        dict_mem nbor (flat_compartments self) = false).
  { intros nbor. rewrite Hiff. split; [intros [[] | H]; exact H | now right]. }
  split; [exact Hiff' |]. split.
  - intros -> r c nbor Hr Hc Hk.
    destruct (dict_mem nbor (flat_compartments self)) eqn:E; [reflexivity |].
    exfalso. apply (proj2 (Hiff' nbor)). exists r, c. auto.
  - intros Hall. destruct missing as [| m missing]; [reflexivity |].
    destruct (proj1 (Hiff' m) (or_introl eq_refl)) as [r [c [Hr [Hc [Hk Hno]]]]].
    rewrite (Hall r c m Hr Hc Hk) in Hno. discriminate.
Qed.

Lemma find_missing_compartments_spec_witness :
  find_missing_compartments sample_store (model sample_system) = Ok [].
Proof.
  destruct (find_missing_compartments_spec sample_store (model sample_system))
    as [missing [Hrun [_ [_ Hempty]]]].
  - intros r [<- | [<- | []]]; simpl; lia.
  - rewrite Hrun. f_equal. apply Hempty.
    intros r c nbor [<- | [<- | []]] Hc; simpl in Hc; inversion Hc; subst c;
      simpl; intros [<- | []]; reflexivity.
Defined.

Lemma for_each_noop {A S : Type} (f : S -> A -> result S) (l : list A) (s : S) :
  (forall x, In x l -> f s x = Ok s) -> for_each f l s = Ok s.
Proof.
  induction l as [| x l IH]; intros Hall; simpl; [reflexivity |].
  rewrite (Hall x) by now left. simpl. apply IH. intros y Hy. apply Hall. now right.
Qed.

Section ResolveNothing.
Variable makeID : option string -> string -> string.
Variable length_unit : Unit.
Variable np_sqrt : Q -> Q.
Variable self : Model.

(** A compartment without Ficks connections is passed over. *)
Lemma resolve_connections_of_noop (st : Store) (c : ref) (C : Compartment) :
  nth_error (comps st) c = Some C ->
  forallb not_ficks (connections C) = true ->
  resolve_connections_of makeID length_unit np_sqrt self st c = Ok st.
Proof.
  intros HC Hno. unfold resolve_connections_of, deref_comp. rewrite HC. simpl.
  rewrite for_each_noop.
  - simpl. rewrite HC. simpl. now rewrite Nat.eqb_refl.
  - intros j Hj. apply in_seq in Hj. rewrite HC. simpl. rewrite Nat.eqb_refl. simpl.
    destruct (nth_error (connections C) j) as [entry |] eqn:Hentry.
    + apply nth_error_In in Hentry.
      rewrite forallb_forall in Hno. specialize (Hno entry Hentry).
      destruct entry as [label [other conn]]. unfold not_ficks in Hno. simpl in Hno.
      destruct conn; [reflexivity | reflexivity | discriminate].
    + apply nth_error_None in Hentry. lia.
Qed.
End ResolveNothing.

Lemma nth_error_copies (st : Store) (Cs : list Compartment)
    (f : Compartment -> Compartment) (r : ref) :
  In r (seq (List.length (comps st)) (List.length Cs)) ->
  exists C, In C Cs /\ nth_error (comps st ++ map f Cs) r = Some (f C).
Proof.
  intros Hr. apply in_seq in Hr.
  rewrite nth_error_app2 by lia.
  destruct (nth_error Cs (r - List.length (comps st))) as [C |] eqn:HC.
  - exists C. split; [now apply nth_error_In in HC |].
    now rewrite nth_error_map, HC.
  - apply nth_error_None in HC. lia.
Qed.

Lemma dict_values_combine {B : Type} (ks : list string) (vs : list B) :
  List.length ks = List.length vs -> dict_values (combine ks vs) = vs.
Proof.
  revert vs. induction ks as [| k ks IH]; intros [| v vs] H; simpl in *;
    try discriminate; [reflexivity |].
  f_equal. apply IH. lia.
Qed.

(** For a model whose compartments flatten to distinct IDs, whose
    connections all refer to those IDs and none of which is a Ficks
    connection, [flatten] succeeds and is the namespace alone: the copies
    are appended to the store and nothing that was in the store is
    written. *)
Theorem flatten_without_ficks (makeID : option string -> string -> string)
    (length_unit : Unit) (np_sqrt : Q -> Q) (self : Model) (st : Store)
    (Cs : list Compartment) :
  Forall2 (fun c C => nth_error (comps st) c = Some C) (source_compartments self) Cs ->
  NoDup (map (flat_id makeID) Cs) ->
  (forall C nbor, In C Cs -> In nbor (dict_keys (connections C)) ->
                  In nbor (map (flat_id makeID) Cs)) ->
  (forall C, In C Cs -> forallb not_ficks (connections C) = true) ->
  flatten makeID length_unit np_sqrt self st =
    Ok (mkStore (comps st ++ map (fun C => Compartment_copy C (flat_id makeID C)) Cs)%list
                (ficks st),
        mkFlatModel (combine (map (flat_id makeID) Cs)
                             (seq (List.length (comps st)) (List.length Cs)))).
Proof.
  intros Hall Hnd Hkeys Hnof.
  set (st1 := mkStore (comps st ++ map (fun C => Compartment_copy C (flat_id makeID C)) Cs)%list
                      (ficks st)).
  set (fm := mkFlatModel (combine (map (flat_id makeID) Cs)
                                  (seq (List.length (comps st)) (List.length Cs)))).
  assert (Hns : flatten_namespace makeID self st = Ok (st1, fm)).
  { rewrite flatten_namespace_loop.
    exact (add_loop_exact makeID _ Cs st [] Hall Hnd). }
  assert (Hvals : dict_values (flat_compartments fm)
                  = seq (List.length (comps st)) (List.length Cs)).
  { simpl. apply dict_values_combine. now rewrite length_map, length_seq. }
  assert (Hcopy : forall r, In r (dict_values (flat_compartments fm)) ->
            exists C, In C Cs /\
              nth_error (comps st1) r = Some (Compartment_copy C (flat_id makeID C))).
  { intros r Hr. rewrite Hvals in Hr. simpl.
    exact (nth_error_copies st Cs _ r Hr). }
  destruct (find_missing_outer st1 fm (dict_values (flat_compartments fm)) [])
    as [missing [Hrun Hiff]].
  { intros r Hr. destruct (Hcopy r Hr) as [C [_ HC]].
    apply nth_error_Some. congruence. }
  assert (Hempty : missing = []).
  { destruct missing as [| m missing]; [reflexivity |]. exfalso.
    destruct (proj1 (Hiff m) (or_introl eq_refl)) as [[] | [r [c [Hr [Hc [Hk Hno]]]]]].
    destruct (Hcopy r Hr) as [C [HinC HC]].
    rewrite HC in Hc. inversion Hc. subst c. simpl in Hk.
    specialize (Hkeys C m HinC Hk).
    unfold dict_mem in Hno.
    destruct (@dict_get_key ref m (flat_compartments fm)) as [v Hv].
    - simpl. unfold dict_keys. rewrite map_fst_combine_eq; [exact Hkeys |].
      now rewrite length_map, length_seq.
    - rewrite Hv in Hno. discriminate. }
  unfold flatten. rewrite Hns. simpl.
  fold st1. fold fm.
  unfold find_missing_compartments. rewrite Hrun, Hempty. simpl.
  rewrite for_each_noop; [reflexivity |].
  intros r Hr. destruct (Hcopy r Hr) as [C [HinC HC]].
  apply (resolve_connections_of_noop makeID length_unit np_sqrt self st1 r _ HC).
  simpl. now apply Hnof.
Qed.

Lemma flatten_without_ficks_witness :
  exists st1 fm,
    flatten sample_makeID meter (fun x => x)
            (mkModel [("a", 0%nat); ("b", 1%nat)] [] None None) sample_store
      = Ok (st1, fm) /\
    dict_keys (flat_compartments fm) = ["a"; "b"] /\
    List.length (comps st1) = 4%nat.
Proof.
  eexists. eexists. split.
  - apply (flatten_without_ficks sample_makeID meter (fun x => x)
             (mkModel [("a", 0%nat); ("b", 1%nat)] [] None None) sample_store
             (comps sample_store)).
    + repeat constructor.
    + repeat constructor; simpl; intuition discriminate.
    + intros C nbor [<- | [<- | []]]; simpl; intros [<- | []]; simpl; tauto.
    + intros C [<- | [<- | []]]; reflexivity.
  - split; reflexivity.
Defined.

(** ** [Model.resolve_ficks]: errors *)

(** A Ficks connection without surface area between two compartments whose
    boxes touch along no axis cannot be resolved: [resolve_ficks] raises
    the adjoining-face error, whether or not the distance is bound. *)
Theorem resolve_ficks_no_face (makeID : option string -> string -> string)
    (length_unit : Unit) (np_sqrt : Q -> Q) (self : Model) (st : Store)
    (c1 c2 conn : ref) (o1 o2 : Compartment) (f : FicksConnection)
    (x1 y1 z1 x2 y2 z2 : Q * Q) :
  nth_error (comps st) c1 = Some o1 -> nth_error (comps st) c2 = Some o2 ->
  nth_error (ficks st) conn = Some f -> surface_area f = None ->
  pos o1 = [x1; y1; z1] -> pos o2 = [x2; y2; z2] ->
  adjoining x1 x2 = false -> adjoining y1 y2 = false -> adjoining z1 z2 = false ->
  resolve_ficks makeID length_unit np_sqrt self st c1 c2 conn
    = Raise no_adjoining_face.
Proof.
  intros H1 H2 Hf Hnone P1 P2 Hx Hy Hz.
  unfold resolve_ficks, deref_comp, deref_ficks. rewrite H1, H2, Hf. simpl.
  unfold bind_surface_area. rewrite Hnone.
  unfold compute_surface_area. rewrite P1, P2. simpl.
  now rewrite Hx, Hy, Hz.
Qed.

Lemma resolve_ficks_no_face_witness :
  resolve_ficks sample_makeID meter (fun x => x) no_arrays apart_store 0%nat 1%nat 0%nat
    = Raise no_adjoining_face.
Proof.
  eapply (resolve_ficks_no_face sample_makeID meter (fun x => x) no_arrays apart_store
            0%nat 1%nat 0%nat); reflexivity.
Defined.

(** In a model that never received an array [periodic] is [None], and a
    Ficks connection whose distance is not bound cannot be resolved there:
    [resolve_ficks] raises [TypeError] when it reads [self.periodic[0]]. *)
Theorem resolve_ficks_without_arrays (makeID : option string -> string -> string)
    (length_unit : Unit) (np_sqrt : Q -> Q) (self : Model) (st : Store)
    (c1 c2 conn : ref) (o1 o2 : Compartment) (f : FicksConnection) (A : Quantity)
    (x1 y1 z1 x2 y2 z2 : Q * Q) :
  nth_error (comps st) c1 = Some o1 -> nth_error (comps st) c2 = Some o2 ->
  nth_error (ficks st) conn = Some f ->
  surface_area f = Some A -> ic_distance f = None ->
  pos o1 = [x1; y1; z1] -> pos o2 = [x2; y2; z2] ->
  periodic self = None ->
  resolve_ficks makeID length_unit np_sqrt self st c1 c2 conn
    = Raise (TypeError "'NoneType' object is not subscriptable").
Proof.
  intros H1 H2 Hf HA Hnone P1 P2 Hper.
  unfold resolve_ficks, deref_comp, deref_ficks. rewrite H1, H2, Hf. simpl.
  unfold bind_surface_area. rewrite HA. simpl.
  unfold bind_ic_distance. rewrite Hnone.
  unfold squared_distance, center_displacements, wrapped_displacement.
  rewrite P1, P2, Hper. reflexivity.
Qed.

Lemma resolve_ficks_without_arrays_witness :
  resolve_ficks sample_makeID meter (fun x => x) no_arrays apart_store 0%nat 1%nat 1%nat
    = Raise (TypeError "'NoneType' object is not subscriptable").
Proof.
  eapply (resolve_ficks_without_arrays sample_makeID meter (fun x => x) no_arrays
            apart_store 0%nat 1%nat 1%nat); reflexivity.
Defined.

(** ** The derivative builder as a whole *)

Lemma connection_loop_no_ficks (st : Store) (idx : dict (dict nat)) (c : Compartment)
    (s : string) (i : nat) (conns : dict (ref * Connection)) :
  forall acc acc',
  for_each (connection_step st idx c s i) conns acc = Ok acc' ->
  forallb not_ficks conns = true.
Proof.
  induction conns as [| entry conns IH]; intros acc acc' Hrun; simpl in *;
    [reflexivity |].
  destruct (connection_step st idx c s i acc entry) as [acc1 |] eqn:Hstep;
    simpl in Hrun; [| discriminate].
  rewrite (IH _ _ Hrun), andb_true_r.
  unfold connection_step in Hstep. unfold not_ficks.
  destruct (snd (snd entry)); simpl in *; [reflexivity | reflexivity | discriminate].
Qed.

(** An ODE system cannot be built on a model that still holds a Ficks
    connection: when [_build_dqdt] returns, no compartment that owns a
    state position has one, since [species_rates] is read on every
    connection of such a compartment and a [FicksConnection] has none. *)
Theorem build_dqdt_needs_resolved (st : Store) (self : ODESystem)
    (dqdt : list DerivFuncBuilder) (i : nat) (lab : string) (cref : ref)
    (c : Compartment) :
  _build_dqdt st self = Ok dqdt ->
  (i < size (state self))%nat ->
  nth_error (st_compartment (state self)) i = Some lab ->
  dict_get lab (flat_compartments (model self)) = Some cref ->
  nth_error (comps st) cref = Some c ->
  forallb not_ficks (connections c) = true.
Proof.
  intros Hbuild Hi Hlab Hcref Hc.
  destruct (build_dqdt_nth st self dqdt Hbuild) as [Hlen Hat].
  destruct (nth_error dqdt i) as [b |] eqn:Hb.
  2: { apply nth_error_None in Hb. lia. }
  destruct (builder_at_parts st self i b (Hat i b Hb))
    as [lab' [cref' [c' [s [racc [E1 [E2 [E3 [_ [_ E6]]]]]]]]]].
  rewrite Hlab in E1. inversion E1. subst lab'.
  rewrite Hcref in E2. inversion E2. subst cref'.
  rewrite Hc in E3. inversion E3. subst c'.
  exact (connection_loop_no_ficks _ _ _ _ _ _ _ _ E6).
Qed.

Lemma build_dqdt_needs_resolved_witness :
  forallb not_ficks
    [("a", (0%nat, sample_leak))] = true.
Proof.
  assert (Hb : exists dqdt, _build_dqdt sample_store sample_system = Ok dqdt).
  { vm_compute. eexists. reflexivity. }
  destruct Hb as [dqdt Hb].
  apply (build_dqdt_needs_resolved sample_store sample_system dqdt 3 "b" 1%nat
           (mkCompartment "b" None [(1, 2); (0, 1); (0, 1)] [] (mkQuantity 3 liter)
              [] [("a", (0%nat, sample_leak))]) Hb);
    try reflexivity.
  simpl. lia.
Defined.

(** What a reaction takes from a reactant it gives to a product: for a
    species among the reactants and a species among the products only, the
    terms the reaction adds are the same two terms, the reactant's sinks
    being the product's sources and its sources the product's sinks. *)
Theorem reaction_step_balance (idx : dict (dict nat)) (c : Compartment)
    (s1 s2 : string) (r : Reaction) (src snk : list Term) :
  str_in s1 (reactant_IDs r) = true ->
  str_in s2 (reactant_IDs r) = false -> str_in s2 (product_IDs r) = true ->
  reaction_step idx c s1 ([], []) r = Ok (src, snk) ->
  reaction_step idx c s2 ([], []) r = Ok (snk, src).
Proof.
  unfold reaction_step. intros H1 H2 H3. rewrite H1, H2, H3. simpl.
  destruct (direction_term idx c (kf r) (reactants r) (stoich_r r) []) as [f |];
    simpl; [| discriminate].
  destruct (direction_term idx c (kr r) (products r) (stoich_p r) []) as [b |];
    simpl; [| discriminate].
  intros H. inversion H. reflexivity.
Qed.

Lemma reaction_step_balance_witness :
  exists src snk,
    reaction_step (index sample_state)
      (mkCompartment "a" None [] [] (mkQuantity 2 liter) [binding] [])
      "drug" ([], []) binding = Ok (src, snk) /\
    reaction_step (index sample_state)
      (mkCompartment "a" None [] [] (mkQuantity 2 liter) [binding] [])
      "complex" ([], []) binding = Ok (snk, src) /\
    List.length src = 1%nat /\ List.length snk = 1%nat.
Proof.
  eexists. eexists. split; [reflexivity |]. split; [| split; reflexivity].
  apply (reaction_step_balance (index sample_state) _ "drug" "complex" binding);
    reflexivity.
Defined.

(** ** [ODESystem.set_q]: the state vector *)

Lemma set_q_loop_length (st : Store) (self : ODESystem) (mv mna : bool)
    (q : PintQuantity) (idxs : list nat) : forall qv,
  List.length (fst (set_q_loop st self mv mna q idxs qv)) = List.length qv.
Proof.
  induction idxs as [| i idxs IH]; intros qv; simpl; [reflexivity |].
  destruct (set_q_value st self mv mna q i); [| reflexivity].
  destruct (i <? List.length qv)%nat; [| reflexivity].
  now rewrite IH, list_update_length.
Qed.

(** Whatever the indices and the quantity, and however the call ends,
    [set_q] leaves a state vector of the length it had. *)
Theorem set_q_keeps_length (st : Store) (self : ODESystem) (idxs : list nat)
    (Qin : QInput) :
  List.length (fst (set_q st self idxs Qin)) = List.length (q_val (state self)).
Proof.
  unfold set_q. destruct (set_q_flags Qin) as [[[mv mna] q] | e]; [| reflexivity].
  apply set_q_loop_length.
Qed.

(** An index outside the state vector stops [set_q] with [IndexError], but
    the indices listed before it have been written by then: a failed call
    can leave the state changed. *)
Theorem set_q_partial_write (st : Store) (self : ODESystem) (x : Q) (i j : nat)
    (rest : list nat) :
  (i < List.length (q_val (state self)))%nat ->
  (List.length (q_val (state self)) <= j)%nat ->
  set_q st self (i :: j :: rest) (Bare x)
    = (list_update (q_val (state self)) i x, Raise IndexError) /\
  nth_error (fst (set_q st self (i :: j :: rest) (Bare x))) i = Some x.
Proof.
  intros Hi Hj.
  assert (Hrun : set_q st self (i :: j :: rest) (Bare x)
                 = (list_update (q_val (state self)) i x, Raise IndexError)).
  { unfold set_q. simpl. unfold set_q_value. simpl.
    apply Nat.ltb_lt in Hi. rewrite Hi. rewrite list_update_length.
    assert (Hj' : (j <? List.length (q_val (state self)))%nat = false)
      by now apply Nat.ltb_ge.
    now rewrite Hj'. }
  split; [exact Hrun |].
  rewrite Hrun. simpl. now apply nth_error_update_same.
Qed.

Lemma set_q_partial_write_witness :
  set_q sample_store sample_system [1; 7; 2]%nat (Bare 5)
    = ([0; 5; 0; 0], Raise IndexError).
Proof.
  destruct (set_q_partial_write sample_store sample_system 5 1 7 [2%nat])
    as [Hrun _]; [simpl; lia | simpl; lia |].
  exact Hrun.
Defined.

(** ** The periodic shift *)

(** For a displacement within [3L/2] of zero the shift is final: applied to
    its own result it changes nothing, and a displacement that is already
    within half a box length is left as it is. *)
Theorem wrap_settles (len dc : Q) :
  - (3 * len) <= 2 * dc -> 2 * dc <= 3 * len ->
  wrap len (wrap len dc) = wrap len dc /\
  (- len <= 2 * dc -> 2 * dc <= len -> wrap len dc = dc).
Proof.
  intros Hlo Hhi. split.
  - destruct (wrap_in_half_box len dc Hlo Hhi) as [H1 H2].
    now apply wrap_unchanged_inside.
  - apply wrap_unchanged_inside.
Qed.

Lemma wrap_settles_witness :
  wrap 10 (wrap 10 9) = wrap 10 9 /\ wrap 10 9 == -1.
Proof.
  destruct (wrap_settles 10 9) as [H _].
  - vm_compute. discriminate.
  - vm_compute. discriminate.
  - split; [exact H | reflexivity].
Defined.
